(** * create-release-hub: the scaffolding CLI, embedded and verified

    The program is one ES module (the prompt-driven revision of the
    CLI): three probes of the project ([hasConfig], [hasLib],
    [detectPackageManager]), an optional install step, a sequence of
    prompts that assembles the configuration object, and one write of
    [./.release-hub.json].

    The embedding follows the module top to bottom.  JavaScript values
    are a small inductive type, the asynchronous top-level code is a
    state-and-exception monad over the pending prompt answers and the
    trace of observable events, and everything the module reads from
    outside (lockfiles, manifest, environment, subprocess and write
    results) is a field of a [world] record. *)

From Stdlib Require Import String Ascii List ZArith Bool Arith Lia.
From Stdlib Require Import DecimalString.
Import ListNotations.

#[local] Set Warnings "-register-all".
Local Open Scope list_scope.
Local Open Scope string_scope.

(** ** A fragment of JavaScript *)

Module Js.

(** The values the module manipulates: what [JSON.parse] returns, plus
    [undefined].  Objects keep their properties in insertion order, as
    JavaScript does for non-index string keys.  Numbers are only ever
    tested for truthiness by this program, so integers suffice. *)
Inductive value : Type :=
| VUndef
| VNull
| VBool (b : bool)
| VNum (z : Z)
| VStr (s : string)
| VArr (items : list value)
| VObj (props : list (string * value)).

(** ToBoolean. *)
Definition truthy (v : value) : bool :=
  match v with
  | VUndef | VNull => false
  | VBool b => b
  | VNum z => negb (z =? 0)%Z
  | VStr s => negb (s =? EmptyString)
  | VArr _ | VObj _ => true
  end.

(** [a || b] on values. *)
Definition or_else (a b : value) : value := if truthy a then a else b.

Fixpoint lookup {A : Type} (k : string) (props : list (string * A)) : option A :=
  match props with
  | [] => None
  | (k', v) :: rest => if k =? k' then Some v else lookup k rest
  end.

(** Property read [v[k]] / [v.k].  [None] stands for the TypeError
    raised on [undefined] and [null].  An array answers [length]; the
    names this program reads ([release-hub], [packageManager],
    [dependencies], [devDependencies], [size]) are neither array
    indices nor defined on any built-in prototype, so on arrays and
    primitives they read as [undefined]. *)
Definition get_prop (v : value) (k : string) : option value :=
  match v with
  | VUndef | VNull => None
  | VObj props => Some (match lookup k props with Some x => x | None => VUndef end)
  | VArr items =>
      Some (if k =? "length" then VNum (Z.of_nat (length items)) else VUndef)
  | VBool _ | VNum _ | VStr _ => Some VUndef
  end.

(** Optional chaining [v?.k] / [v?.[k]]. *)
Definition opt_get (v : value) (k : string) : value :=
  match get_prop v k with
  | Some x => x
  | None => VUndef
  end.

(** Property write [o[k] = v] on an ordinary object: an existing key
    keeps its position, a new key goes last. *)
Fixpoint obj_set (props : list (string * value)) (k : string) (v : value)
  : list (string * value) :=
  match props with
  | [] => [(k, v)]
  | (k', v') :: rest =>
      if k =? k' then (k', v) :: rest else (k', v') :: obj_set rest k v
  end.

(** [Object.fromEntries]. *)
Definition fromEntries (entries : list (string * value)) : list (string * value) :=
  fold_left (fun o e => obj_set o (fst e) (snd e)) entries [].

Definition keys {A : Type} (props : list (string * A)) : list string := map fst props.

(** ToNumber, for the relational operators.  [None] is NaN.  The only
    operand this program ever compares is the [size] read off an array;
    strings and objects would go through StringToNumber / ToPrimitive,
    which is not modelled. *)
Definition to_number (v : value) : option Z :=
  match v with
  | VUndef => None
  | VNull => Some 0%Z
  | VBool b => Some (if b then 1 else 0)%Z
  | VNum z => Some z
  | VStr _ | VArr _ | VObj _ => None
  end.

(** [a < b]: false as soon as one side is NaN. *)
Definition lt (a b : value) : bool :=
  match to_number a, to_number b with
  | Some x, Some y => (x <? y)%Z
  | _, _ => false
  end.

(** [String.prototype.split] on a one-character separator, returned as
    the first piece and the remaining pieces (the result array is never
    empty). *)
Fixpoint split (sep : ascii) (s : string) : string * list string :=
  match s with
  | EmptyString => (EmptyString, [])
  | String c rest =>
      let '(hd, tl) := split sep rest in
      if Ascii.eqb c sep then (EmptyString, hd :: tl) else (String c hd, tl)
  end.

(** [String.prototype.startsWith]. *)
Definition startsWith (s pre : string) : bool := String.prefix pre s.

(** [Array.prototype.join]. *)
Fixpoint join (sep : string) (l : list string) : string :=
  match l with
  | [] => EmptyString
  | [x] => x
  | x :: rest => x ++ sep ++ join sep rest
  end.

(** *** JSON.stringify(value, null, 2) *)

Definition chr (n : nat) : string := String (ascii_of_nat n) EmptyString.
Definition dquote : string := chr 34.
Definition backslash : string := chr 92.
Definition newline : string := chr 10.

Definition hex_digit (n : nat) : string :=
  match nth_error ["0"; "1"; "2"; "3"; "4"; "5"; "6"; "7";
                   "8"; "9"; "a"; "b"; "c"; "d"; "e"; "f"] n with
  | Some d => d
  | None => "0"
  end.

(** QuoteJSONString, one code unit at a time. *)
Definition escape_char (c : ascii) : string :=
  let n := nat_of_ascii c in
  if Nat.eqb n 34 then backslash ++ dquote
  else if Nat.eqb n 92 then backslash ++ backslash
  else if Nat.eqb n 8 then backslash ++ "b"
  else if Nat.eqb n 12 then backslash ++ "f"
  else if Nat.eqb n 10 then backslash ++ "n"
  else if Nat.eqb n 13 then backslash ++ "r"
  else if Nat.eqb n 9 then backslash ++ "t"
  else if Nat.ltb n 32 then backslash ++ "u00" ++ hex_digit (n / 16) ++ hex_digit (n mod 16)
  else String c EmptyString.

Fixpoint escape (s : string) : string :=
  match s with
  | EmptyString => EmptyString
  | String c rest => escape_char c ++ escape rest
  end.

Definition quote (s : string) : string := dquote ++ escape s ++ dquote.

Definition number_to_string (z : Z) : string := NilZero.string_of_int (Z.to_int z).

Definition gap : string := "  ".

(** SerializeJSONProperty with a two-space gap.  [None] is [undefined]:
    such a property is left out of an object and printed as [null] in
    an array. *)
Fixpoint serialize (indent : string) (v : value) : option string :=
  let inner := indent ++ gap in
  let wrap (opening closing : string) (parts : list string) :=
    match parts with
    | [] => opening ++ closing
    | _ => opening ++ newline ++ inner
           ++ join ("," ++ newline ++ inner) parts
           ++ newline ++ indent ++ closing
    end in
  match v with
  | VUndef => None
  | VNull => Some "null"
  | VBool b => Some (if b then "true" else "false")
  | VNum z => Some (number_to_string z)
  | VStr s => Some (quote s)
  | VArr items =>
      Some (wrap "[" "]"
        ((fix elements (l : list value) : list string :=
            match l with
            | [] => []
            | x :: rest =>
                match serialize inner x with
                | Some t => t
                | None => "null"
                end :: elements rest
            end) items))
  | VObj props =>
      Some (wrap "{" "}"
        ((fix members (l : list (string * value)) : list string :=
            match l with
            | [] => []
            | (k, x) :: rest =>
                match serialize inner x with
                | Some t => (quote k ++ ": " ++ t) :: members rest
                | None => members rest
                end
            end) props))
  end.

(** [JSON.stringify(v, null, 2)] inside a template literal: the text,
    or the word [undefined]. *)
Definition stringify (v : value) : string :=
  match serialize EmptyString v with
  | Some t => t
  | None => "undefined"
  end.

End Js.

Import Js.

(** ** The outside of the module: constants, the project, the user *)

Definition NAME : string := "release-hub".
Definition CONFIG_SCHEMA_URL : string :=
  "https://cdn.jsdelivr.net/npm/release-hub@latest/schema/release-hub.schema.json".
Definition CONFIG_FILE : string := "./.release-hub.json".

Definition PACKAGE_INSTALL : list (string * (string * list string)) :=
  [ ("npm", ("npm", ["i"; "-D"; NAME]));
    ("yarn", ("yarn", ["add"; "-D"; NAME]));
    ("pnpm", ("pnpm", ["add"; "-D"; NAME]));
    ("bun", ("bun", ["i"; "-D"; NAME])) ].

Definition defaultTargetPaths : list (string * value) :=
  [ ("node", VStr "./package.json");
    ("jsr", VStr "./jsr.json");
    ("deno", VStr "./deno.json");
    ("webext", VStr "./manifest.json") ].

(** A thrown JavaScript error; the program only ever reads [message]. *)
Inductive exn : Type := Error (message : string).

Definition message_of (e : exn) : string := let 'Error m := e in m.

(** [JSON.parse(await readFile(PACKAGE, "utf-8"))]: the parsed value, or
    the error either call raised.  The module evaluates this up to three
    times, always before it changes anything in the project, so one
    value serves for the run. *)
Inductive manifest_read : Type :=
| Unreadable (e : exn)
| Parsed (pkg : value).

(** How the install subprocess ends: an exit code, a signal (the [exit]
    event then carries [null]), or a failure to spawn. *)
Inductive spawn_result : Type :=
| ExitCode (code : Z)
| ExitSignal
| SpawnError (e : exn).

Record world : Type := {
  cwd : string;
  (** [access(join(cwd, name))] succeeds *)
  present : string -> bool;
  (** [Array.fromAsync(glob(CONFIG_PATTERN, { cwd }))] *)
  glob_matches : list string;
  manifest : manifest_read;
  (** [process.env.npm_config_user_agent] *)
  npm_config_user_agent : option string;
  spawn : string -> list string -> spawn_result;
  (** the error [writeFile] rejects with, if it does *)
  write_failure : option exn;
  (** the TypeError the engine raises; its text is the engine's *)
  type_error : exn
}.

(** What a prompt of the library resolves to: the cancel symbol or a
    value of the prompt's kind. *)
Inductive answer : Type :=
| Cancel
| Confirmed (b : bool)
| Picked (v : string)
| PickedMany (vs : list string)
| Typed (s : string).

Inductive prompt : Type :=
| Confirm (message : string)
| Select (message : string)
| Multiselect (message : string)
| Text (message : string).

(** Observable events, in program order. *)
Inductive event : Type :=
| Intro (title : string)
| Outro (text : string)
| LogInfo (text : string)
| LogError (text : string)
| LogSuccess (text : string)
| SpinnerStart (text : string)
| SpinnerStop (text : string)
| Asked (p : prompt) (a : answer)
| Spawned (cmd : string) (args : list string)
| Wrote (path content : string).

(** ** Package-manager detection (lines 46-76) *)

Definition exists_ (w : world) (file : string) : bool := present w file.

(** The [try] block of [detectPackageManager]: [Some pm] when it
    returns, [None] when it falls through, either because the field is
    falsy or because an exception was caught: a failed read or parse,
    a property read on [null], or [.split] missing on a value that is
    not a string. *)
Definition packageManagerField (w : world) : option string :=
  match manifest w with
  | Unreadable _ => None
  | Parsed pkg =>
      match get_prop pkg "packageManager" with
      | None => None
      | Some field =>
          if truthy field then
            match field with
            | VStr s => Some (fst (split "@" s))
            | _ => None
            end
          else None
      end
  end.

Definition uaStartsWith (ua : option string) (pre : string) : bool :=
  match ua with
  | Some s => startsWith s pre
  | None => false
  end.

Definition detectPackageManager (w : world) : string :=
  if exists_ w "pnpm-lock.yaml" then "pnpm"
  else if exists_ w "yarn.lock" then "yarn"
  else if exists_ w "bun.lock" then "bun"
  else if exists_ w "bun.lockb" then "bun"
  else if exists_ w "package-lock.json" then "npm"
  else
    match packageManagerField w with
    | Some pm => pm
    | None =>
        let ua := npm_config_user_agent w in
        if uaStartsWith ua "pnpm" then "pnpm"
        else if uaStartsWith ua "yarn" then "yarn"
        else if uaStartsWith ua "bun" then "bun"
        else if uaStartsWith ua "npm" then "npm"
        else "npm"
    end.

(** ** The run-time monad *)

Record state : Type := {
  pending : list answer;   (** answers the user will still give *)
  trace : list event       (** what has happened so far *)
}.

(** Ways the process stops short of the end of the module: [process.exit],
    a prompt still waiting for the user, or an answer of a kind the
    prompt cannot produce. *)
Inductive halt : Type :=
| Exited (code : Z)
| Waiting
| Stuck.

Inductive res (A : Type) : Type :=
| Ret (a : A)
| Throw (e : exn)
| Halt (h : halt).

Arguments Ret {A} a.
Arguments Throw {A} e.
Arguments Halt {A} h.

Definition M (A : Type) : Type := state -> res A * state.

Definition ret {A : Type} (a : A) : M A := fun s => (Ret a, s).

Definition bind {A B : Type} (m : M A) (k : A -> M B) : M B :=
  fun s =>
    match m s with
    | (Ret a, s') => k a s'
    | (Throw e, s') => (Throw e, s')
    | (Halt h, s') => (Halt h, s')
    end.

Declare Scope js_scope.
Delimit Scope js_scope with js.
Notation "x <- m ;; k" := (bind m (fun x => k))
  (at level 61, m at next level, right associativity) : js_scope.
Notation "m ;; k" := (bind m (fun _ => k))
  (at level 61, right associativity) : js_scope.
Local Open Scope js_scope.

Definition throw {A : Type} (e : exn) : M A := fun s => (Throw e, s).

(** [try { m } catch (e) { handler e }] *)
Definition try_catch {A : Type} (m : M A) (handler : exn -> M A) : M A :=
  fun s =>
    match m s with
    | (Throw e, s') => handler e s'
    | other => other
    end.

(** [process.exit(code)] *)
Definition exit {A : Type} (code : Z) : M A := fun s => (Halt (Exited code), s).

Definition emit (e : event) : M unit :=
  fun s => (Ret tt, {| pending := pending s; trace := trace s ++ [e] |}).

Definition intro (title : string) : M unit := emit (Intro title).
Definition outro (text : string) : M unit := emit (Outro text).
Definition log_info (text : string) : M unit := emit (LogInfo text).
Definition log_error (text : string) : M unit := emit (LogError text).
Definition log_success (text : string) : M unit := emit (LogSuccess text).
Definition s_start (text : string) : M unit := emit (SpinnerStart text).
Definition s_stop (text : string) : M unit := emit (SpinnerStop text).

(** ** The prompt library, by contract *)

(** What an awaited prompt yields: the cancel symbol, or the value. *)
Inductive prompted (A : Type) : Type :=
| CancelSymbol
| Value (a : A).

Arguments CancelSymbol {A}.
Arguments Value {A} a.

Definition isCancel {A : Type} (result : prompted A) : bool :=
  match result with
  | CancelSymbol => true
  | Value _ => false
  end.

(** The next answer of the user, recorded in the trace; the prompt
    blocks when the user has nothing more to say. *)
Definition next (p : prompt) : M answer :=
  fun s =>
    match pending s with
    | [] => (Halt Waiting, s)
    | a :: rest => (Ret a, {| pending := rest; trace := trace s ++ [Asked p a] |})
    end.

Definition stuck {A : Type} : M A := fun s => (Halt Stuck, s).

Definition confirm (message : string) : M (prompted bool) :=
  a <- next (Confirm message) ;;
  match a with
  | Cancel => ret CancelSymbol
  | Confirmed b => ret (Value b)
  | _ => stuck
  end.

Definition member (v : string) (l : list string) : bool := existsb (String.eqb v) l.

(** [select] resolves to the value of one of its options. *)
Definition select (message : string) (options : list string) : M (prompted string) :=
  a <- next (Select message) ;;
  match a with
  | Cancel => ret CancelSymbol
  | Picked v => if member v options then ret (Value v) else stuck
  | _ => stuck
  end.

(** [multiselect] resolves to an array of option values, in the order
    the user picked them.  The program leaves [required] at its default,
    so the prompt itself refuses an empty selection, and it lists no
    value twice: the arrays it can resolve to are among the arrays of
    option values admitted here, and what is proved of all of these
    holds of them. *)
Definition multiselect (message : string) (options : list string)
  : M (prompted (list string)) :=
  a <- next (Multiselect message) ;;
  match a with
  | Cancel => ret CancelSymbol
  | PickedMany vs => if forallb (fun v => member v options) vs then ret (Value vs) else stuck
  | _ => stuck
  end.

(** [text] keeps the prompt open while [validate] returns a complaint. *)
Fixpoint text_from (message : string) (validate : string -> option string)
  (answers : list answer) (tr : list event) : res (prompted string) * state :=
  match answers with
  | [] => (Halt Waiting, {| pending := []; trace := tr |})
  | a :: rest =>
      let tr' := (tr ++ [Asked (Text message) a])%list in
      match a with
      | Cancel => (Ret CancelSymbol, {| pending := rest; trace := tr' |})
      | Typed v =>
          match validate v with
          | None => (Ret (Value v), {| pending := rest; trace := tr' |})
          | Some _ => text_from message validate rest tr'
          end
      | _ => (Halt Stuck, {| pending := rest; trace := tr' |})
      end
  end.

Definition text (message : string) (validate : string -> option string)
  : M (prompted string) :=
  fun s => text_from message validate (pending s) (trace s).

(** ** The module's own functions *)

Definition cancelled : string := "Operation cancelled by user".

(** Lines 142-147.  Past this call the result is known to be a value. *)
Definition exitOnCancel {A : Type} (result : prompted A) : M A :=
  match result with
  | CancelSymbol => log_error cancelled ;; exit 1
  | Value a => ret a
  end.

Definition readManifest (w : world) : M value :=
  match manifest w with
  | Unreadable e => throw e
  | Parsed pkg => ret pkg
  end.

(** A property read that raises on [undefined] and [null]. *)
Definition read (w : world) (v : value) (k : string) : M value :=
  match get_prop v k with
  | Some x => ret x
  | None => throw (type_error w)
  end.

(** Lines 78-104. *)
Definition hasConfig (w : world) : M bool :=
  s_start ("Checking config files in " ++ cwd w) ;;
  let matches := glob_matches w in
  if (0 <? length matches)%nat then
    (s_stop ("Found config file(s): " ++ join ", " matches) ;;
     ret true)
  else
    (s_stop "No config files found" ;;
     s_start "Checking package.json for 'release-hub' field" ;;
     try_catch
       (pkg <- readManifest w ;;
        field <- read w pkg "release-hub" ;;
        if truthy field then
          (s_stop "Found config under 'release-hub' in package.json" ;;
           ret true)
        else
          (s_stop "'release-hub' field not found in package.json" ;;
           ret false))
       (fun _ =>
          s_stop "package.json not found or unreadable" ;;
          ret false)).

(** Lines 117-119. *)
Definition installed (pkg : value) : bool :=
  truthy (or_else (opt_get (opt_get pkg "dependencies") NAME)
                  (opt_get (opt_get pkg "devDependencies") NAME)).

(** Lines 106-127. *)
Definition hasLib (w : world) : M bool :=
  s_start ("Checking whether " ++ NAME ++ " is installed") ;;
  match manifest w with
  | Unreadable _ =>
      s_stop "package.json not found or unreadable" ;;
      ret false
  | Parsed pkg =>
      let installed := installed pkg in
      s_stop (if installed then NAME ++ " is installed"
              else NAME ++ " is not installed in this project") ;;
      ret installed
  end.

(** Lines 129-140: the promise settles when the child exits or fails. *)
Definition spawnAsync (w : world) (cmd : string) (args : list string) : M unit :=
  emit (Spawned cmd args) ;;
  match spawn w cmd args with
  | ExitCode code =>
      if (code =? 0)%Z then ret tt
      else throw (Error (cmd ++ " exited with code " ++ number_to_string code))
  | ExitSignal => throw (Error (cmd ++ " exited with code null"))
  | SpawnError e => throw e
  end.

(** [const [cmd, cmdArgs] = PACKAGE_INSTALL[pm]]: a name that is not a
    key of the table yields nothing iterable, and the engine raises. *)
Definition destructure (w : world) (entry : option (string * list string))
  : M (string * list string) :=
  match entry with
  | Some found => ret found
  | None => throw (type_error w)
  end.

(** Lines 158-181. *)
Definition installStep (w : world) : M unit :=
  let pm := detectPackageManager w in
  shouldInstall <- confirm ("Would you like to install " ++ NAME ++ " using " ++ pm ++ "?") ;;
  shouldInstall <- exitOnCancel shouldInstall ;;
  if negb shouldInstall then log_info "Skipping installation"
  else
    (entry <- destructure w (lookup pm PACKAGE_INSTALL) ;;
     let '(cmd, cmdArgs) := entry in
     s_start ("Installing " ++ NAME ++ " using " ++ pm) ;;
     spawnAsync w cmd cmdArgs ;;
     s_stop (NAME ++ " installed successfully")).

Definition options : list string := ["node"; "jsr"; "deno"; "webext"].

(** Lines 228-230: [/^(\.\/|\.\.\/)/.test(v)]. *)
Definition validate (v : string) : option string :=
  if startsWith v "./" || startsWith v "../" then None
  else Some "Path must start with ./ or ../".

(** Lines 221-236: the loop over the selected targets. *)
Fixpoint collectPaths (askTargets : list string) (targetsPath : list (string * value))
  : M (list (string * value)) :=
  match askTargets with
  | [] => ret targetsPath
  | t :: rest =>
      let defaultPath := match lookup t defaultTargetPaths with
                         | Some p => p
                         | None => VUndef
                         end in
      r <- text ("Path for " ++ t ++ ":") validate ;;
      r <- exitOnCancel r ;;
      collectPaths rest (obj_set targetsPath t (or_else (VStr r) defaultPath))
  end.

(** The array a [multiselect] resolves to, as a value.  The module
    itself treats such a result as an array: it calls [.map] on it
    (line 215), iterates it (line 221) and spreads it (line 279). *)
Definition array_of (l : list string) : value := VArr (map VStr l).

(** Lines 267-288: one pass through the body of [while (addMore)],
    yielding the new [addMore] and [syncGroups].  [tooSmall] is the
    condition [!group || group.size < 2], with the short circuit of
    [||]; [continue] goes round with [addMore] still true. *)
Definition syncGroupsBody (w : world) (syncGroups : list (list string))
  : M (bool * list (list string)) :=
  group <- multiselect "Select targets to sync together:" options ;;
  group <- exitOnCancel group ;;
  let g := array_of group in
  tooSmall <- (if negb (truthy g) then ret true
               else (size <- read w g "size" ;; ret (lt size (VNum 2)))) ;;
  if tooSmall : bool then
    (log_error "A sync group must contain at least 2 targets." ;;
     ret (true, syncGroups))
  else
    (let syncGroups := (syncGroups ++ [group])%list in
     again <- confirm "Add another sync group?" ;;
     again <- exitOnCancel again ;;
     ret (again, syncGroups)).

(** The [while] loop, by recursion on a bound on its passes; [None]
    when the bound is too small. *)
Fixpoint syncGroupsLoop (fuel : nat) (w : world) (addMore : bool)
  (syncGroups : list (list string)) (s : state)
  : option (res (list (list string)) * state) :=
  if addMore then
    match fuel with
    | O => None
    | S fuel' =>
        match syncGroupsBody w syncGroups s with
        | (Ret (addMore', syncGroups'), s') => syncGroupsLoop fuel' w addMore' syncGroups' s'
        | (Throw e, s') => Some (Throw e, s')
        | (Halt h, s') => Some (Halt h, s')
        end
    end
  else Some (Ret syncGroups, s).

(** Lines 263-289.  Every pass that comes back consumed an answer, so
    one pass more than there are pending answers is always enough
    (lemma [syncGroupsLoop_enough]). *)
Definition syncGroupsFlow (w : world) : M (list (list string)) :=
  fun s =>
    match syncGroupsLoop (S (length (pending s))) w true [] s with
    | Some r => r
    | None => (Halt Stuck, s)
    end.

(** Lines 193-292: the prompts that fill in [config]. *)
Definition assemble (w : world) (config : list (string * value))
  : M (list (string * value)) :=
  defaultReleaseType <- select "Select default release type:" ["major"; "minor"; "patch"] ;;
  defaultReleaseType <- exitOnCancel defaultReleaseType ;;
  let config := obj_set config "defaultReleaseType" (VStr defaultReleaseType) in
  askTargets <- multiselect "Enable version targets:" options ;;
  askTargets <- exitOnCancel askTargets ;;
  let targets := fromEntries (map (fun t => (t, VBool true)) askTargets) in
  let config := obj_set config "targets" (VObj targets) in
  targetsPath <- collectPaths askTargets [] ;;
  let config := obj_set config "targetsPath" (VObj targetsPath) in
  syncMode <- select "How should versions be synchronized?" ["all"; "none"; "groups"] ;;
  syncMode <- exitOnCancel syncMode ;;
  let config := if syncMode =? "all" then obj_set config "sync" (VBool true) else config in
  let config := if syncMode =? "none" then obj_set config "sync" (VBool false) else config in
  if syncMode =? "groups" then
    (log_info "Create sync groups, each group must contain at least 2 targets" ;;
     syncGroups <- syncGroupsFlow w ;;
     ret (obj_set config "sync" (VArr (map array_of syncGroups))))
  else ret config.

Definition writeFile (w : world) (path content : string) : M unit :=
  match write_failure w with
  | Some e => throw e
  | None => emit (Wrote path content)
  end.

(** The initial [config] object (lines 42-44). *)
Definition config : list (string * value) := [("$schema", VStr CONFIG_SCHEMA_URL)].

(** Lines 150-302: the [try] block. *)
Definition body (w : world) : M unit :=
  intro "create-release-hub" ;;
  existing <- hasConfig w ;;
  (if existing : bool then throw (Error "A Release Hub config already exists in this project")
   else ret tt) ;;
  isInstalled <- hasLib w ;;
  (if negb isInstalled then installStep w else ret tt) ;;
  log_info "Configuring Release Hub" ;;
  config <- assemble w config ;;
  log_success "Configuration complete" ;;
  s_start ("Generating configuration file: " ++ CONFIG_FILE) ;;
  writeFile w CONFIG_FILE (stringify (VObj config) ++ newline) ;;
  s_stop ("Created configuration file: " ++ CONFIG_FILE) ;;
  outro "You're all set!".

(** [err.message || "Unknown error occurred"] *)
Definition shown (err : exn) : string :=
  if message_of err =? EmptyString then "Unknown error occurred" else message_of err.

(** Lines 303-305: the [catch] block. *)
Definition report (err : exn) : M unit := log_error (shown err).

Definition main (w : world) : M unit := try_catch (body w) report.

(** A run of the CLI on a project and a user. *)
Definition run (w : world) (answers : list answer) : res unit * state :=
  main w {| pending := answers; trace := [] |}.

(** Line 40: the one spinner [s] of the module.  [s.start] sets the
    timer that draws it and [s.stop] clears that timer; [spinner_after]
    follows the two calls along a trace, from the state [active]. *)
Fixpoint spinner_after (active : bool) (tr : list event) : bool :=
  match tr with
  | [] => active
  | SpinnerStart _ :: rest => spinner_after true rest
  | SpinnerStop _ :: rest => spinner_after false rest
  | _ :: rest => spinner_after active rest
  end.

(** The spinner is still running after the events [tr] of a run. *)
Definition spinning (tr : list event) : bool := spinner_after false tr.

(** The status the process ends with, if it ends.  [process.exit] ends
    it with its argument, whatever is still going on, and an error
    nobody caught ends it with 1.  When the module has run to its end
    with no exit code set, the process ends with 0 once nothing keeps it
    alive: a spinner that was started and not stopped does, its timer
    is still set, and so there is no status.  Nor is there one while a
    prompt waits for its answer. *)
Definition exit_status {A : Type} (out : res A * state) : option Z :=
  match fst out with
  | Ret _ => if spinning (trace (snd out)) then None else Some 0%Z
  | Throw _ => Some 1%Z
  | Halt (Exited code) => Some code
  | Halt Waiting | Halt Stuck => None
  end.

(** ** Vocabulary of the statements *)

Local Open Scope list_scope.

(** The lockfiles with the manager each one stands for, in the order of
    precedence the specification gives. *)
Definition lockfile_order : list (string * string) :=
  [ ("pnpm-lock.yaml", "pnpm");
    ("yarn.lock", "yarn");
    ("bun.lock", "bun");
    ("bun.lockb", "bun");
    ("package-lock.json", "npm") ].

Definition lockfile_names : list string := map fst lockfile_order.

Definition no_lockfile (w : world) : Prop :=
  forall f, In f lockfile_names -> present w f = false.

(** The closed enumeration of package managers. *)
Definition managers : list string := ["npm"; "yarn"; "pnpm"; "bun"].

(** The manifest can be read and its [packageManager] field is the
    non-empty string [s]. *)
Definition declares_manager (w : world) (s : string) : Prop :=
  exists pkg,
    manifest w = Parsed pkg /\
    get_prop pkg "packageManager" = Some (VStr s) /\
    s <> EmptyString.

(** [r] is what stands before the first [@] of [s] (all of [s] when it
    has none). *)
Definition before_at (s r : string) : Prop :=
  (forall c, In c (list_ascii_of_string r) -> c <> "@"%char) /\
  (s = r \/ exists rest, s = (r ++ "@" ++ rest)%string).

(** A project with no lockfile whose manifest names a manager the tool
    does not know. *)
Definition unknown_manager_project : world :=
  {| cwd := "/project";
     present := fun _ => false;
     glob_matches := [];
     manifest := Parsed (VObj [("name", VStr "demo");
                               ("packageManager", VStr "foo@1.0.0")]);
     npm_config_user_agent := None;
     spawn := fun _ _ => ExitCode 0;
     write_failure := None;
     type_error := Error "PACKAGE_INSTALL[pm] is not iterable" |}.

(** A project with two lockfiles. *)
Definition yarn_and_npm_project : world :=
  {| cwd := "/project";
     present := fun f => orb (String.eqb f "yarn.lock") (String.eqb f "package-lock.json");
     glob_matches := [];
     manifest := Unreadable (Error "ENOENT: no such file or directory");
     npm_config_user_agent := Some "pnpm/9.0.0 npm/? node/v22.0.0";
     spawn := fun _ _ => ExitCode 0;
     write_failure := None;
     type_error := Error "PACKAGE_INSTALL[pm] is not iterable" |}.

(** A project with no lockfile whose manifest declares yarn. *)
Definition yarn_manifest_project : world :=
  {| cwd := "/project";
     present := fun _ => false;
     glob_matches := [];
     manifest := Parsed (VObj [("packageManager", VStr "yarn@3.0.0")]);
     npm_config_user_agent := Some "bun/1.2.0";
     spawn := fun _ _ => ExitCode 0;
     write_failure := None;
     type_error := Error "PACKAGE_INSTALL[pm] is not iterable" |}.

(** The library name is a key of one of the manifest's dependency
    mappings. *)
Definition declares_library (w : world) : Prop :=
  exists props section deps,
    manifest w = Parsed (VObj props) /\
    (section = "dependencies" \/ section = "devDependencies") /\
    lookup section props = Some (VObj deps) /\
    In NAME (keys deps).

(** The library is a key with a truthy value (a non-empty version
    range, in a manifest npm accepts) of one of the dependency
    mappings. *)
Definition depends_on_library (w : world) : Prop :=
  exists props section deps v,
    manifest w = Parsed (VObj props) /\
    (section = "dependencies" \/ section = "devDependencies") /\
    lookup section props = Some (VObj deps) /\
    lookup NAME deps = Some v /\
    truthy v = true.

(** A manifest that lists the library with the empty version range,
    which npm reads as "any version". *)
Definition empty_range_project : world :=
  {| cwd := "/project";
     present := fun _ => false;
     glob_matches := [];
     manifest := Parsed (VObj [("name", VStr "demo");
                               ("dependencies", VObj [("release-hub", VStr EmptyString)])]);
     npm_config_user_agent := None;
     spawn := fun _ _ => ExitCode 0;
     write_failure := None;
     type_error := Error "PACKAGE_INSTALL[pm] is not iterable" |}.

Definition start (answers : list answer) : state :=
  {| pending := answers; trace := [] |}.

(** *** Reading a trace *)

Definition written (tr : list event) : list (string * string) :=
  flat_map (fun e => match e with Wrote path content => [(path, content)] | _ => [] end) tr.

Definition errors (tr : list event) : list string :=
  flat_map (fun e => match e with LogError text => [text] | _ => [] end) tr.

(** The error [spawnAsync] rejects with, if the subprocess fails. *)
Definition spawn_rejection (w : world) (cmd : string) (args : list string) : option exn :=
  match spawn w cmd args with
  | ExitCode code =>
      if (code =? 0)%Z then None
      else Some (Error (cmd ++ " exited with code " ++ number_to_string code)%string)
  | ExitSignal => Some (Error (cmd ++ " exited with code null")%string)
  | SpawnError e => Some e
  end.

(** An event of an undisturbed stretch of a run: nothing is written,
    no error and no completion is announced, no prompt is cancelled,
    and a subprocess that was started succeeded. *)
Definition calm (w : world) (e : event) : Prop :=
  match e with
  | Wrote _ _ | LogError _ | LogSuccess _ | Outro _ => False
  | Asked _ Cancel => False
  | Spawned cmd args => spawn_rejection w cmd args = None
  | _ => True
  end.

Definition quiet (w : world) (d : list event) : Prop := Forall (calm w) d.

(** A release configuration is already there: a file matches the
    pattern, or the manifest has a truthy [release-hub] field. *)
Definition has_config (w : world) : Prop :=
  glob_matches w <> [] \/
  exists pkg v,
    manifest w = Parsed pkg /\ get_prop pkg "release-hub" = Some v /\ truthy v = true.

(** The keys of an object built by writing the keys of [l] in order. *)
Definition add_key (ks : list string) (k : string) : list string :=
  if member k ks then ks else ks ++ [k].

Definition distinct (l : list string) : list string := fold_left add_key l [].

Definition targets_question : prompt := Multiselect "Enable version targets:".

(** The entry of [targetsPath] is a path the prompt accepted. *)
Definition path_entry (kv : string * value) : Prop :=
  exists path, snd kv = VStr path /\ validate path = None.

(** The shape of the configuration object once the prompts are through,
    [d] being what happened while it was assembled. *)
Definition assembled (cfg : list (string * value)) (d : list event) : Prop :=
  exists release askTargets tp sync,
    In (Asked targets_question (PickedMany askTargets)) d /\
    cfg = [ ("$schema", VStr CONFIG_SCHEMA_URL);
            ("defaultReleaseType", VStr release);
            ("targets", VObj (fromEntries (map (fun t => (t, VBool true)) askTargets)));
            ("targetsPath", VObj tp);
            ("sync", sync) ] /\
    In release ["major"; "minor"; "patch"] /\
    (forall t, In t askTargets -> In t options) /\
    keys tp = distinct askTargets /\
    Forall path_entry tp /\
    (sync = VBool true \/ sync = VBool false \/
     exists groups, sync = VArr (map array_of groups)).

(** The last five events of a successful run. *)
Definition completion (cfg : list (string * value)) : list event :=
  [ LogSuccess "Configuration complete";
    SpinnerStart ("Generating configuration file: " ++ CONFIG_FILE);
    Wrote CONFIG_FILE (stringify (VObj cfg) ++ newline);
    SpinnerStop ("Created configuration file: " ++ CONFIG_FILE);
    Outro "You're all set!" ].

(** The errors the [try] block can raise, each with what happened
    before it. *)
Inductive failure (w : world) : exn -> list event -> Prop :=
| ConfigExists d :
    quiet w d -> has_config w ->
    failure w (Error "A Release Hub config already exists in this project") d
| UnknownManager d :
    quiet w d -> lookup (detectPackageManager w) PACKAGE_INSTALL = None ->
    failure w (type_error w) d
| InstallFailed d cmd args e :
    quiet w d -> spawn_rejection w cmd args = Some e ->
    failure w e (d ++ [Spawned cmd args])
| WriteFailed d e :
    quiet w d -> write_failure w = Some e ->
    failure w e (d ++ [ LogSuccess "Configuration complete";
                        SpinnerStart ("Generating configuration file: " ++ CONFIG_FILE) ]).

(** What a computation may do, [d] being the events it adds. *)
Definition outcome {A : Type} (w : world) (P : A -> list event -> Prop)
  (r : res A) (d : list event) : Prop :=
  match r with
  | Ret a => P a d
  | Throw e => failure w e d
  | Halt (Exited code) =>
      code = 1%Z /\
      exists d0 p, quiet w d0 /\ d = d0 ++ [Asked p Cancel; LogError cancelled]
  | Halt _ => quiet w d
  end.

Definition sound {A : Type} (w : world) (m : M A) (P : A -> list event -> Prop) : Prop :=
  forall s, exists d,
    trace (snd (m s)) = trace s ++ d /\ outcome w P (fst (m s)) d.

(** A prompt, before [exitOnCancel] has looked at its result. *)
Definition prompt_sound {A : Type} (w : world) (p : M (prompted A))
  (Q : A -> list event -> Prop) : Prop :=
  forall s, exists d,
    trace (snd (p s)) = trace s ++ d /\
    match fst (p s) with
    | Ret (Value a) => quiet w d /\ Q a d
    | Ret CancelSymbol => exists d0 q, quiet w d0 /\ d = d0 ++ [Asked q Cancel]
    | Throw _ => False
    | Halt (Exited _) => False
    | Halt _ => quiet w d
    end.

(** The ways a run of the CLI ends. *)
Inductive ending (w : world) : res unit -> list event -> Prop :=
| Succeeded d cfg :
    quiet w d -> assembled cfg d -> write_failure w = None ->
    ending w (Ret tt) (d ++ completion cfg)
| Reported d e :
    failure w e d ->
    ending w (Ret tt) (d ++ [LogError (shown e)])
| CancelledAt d p :
    quiet w d ->
    ending w (Halt (Exited 1)) (d ++ [Asked p Cancel; LogError cancelled])
| Blocked d h :
    h = Waiting \/ h = Stuck -> quiet w d ->
    ending w (Halt h) d.

(** A project that already has a configuration file. *)
Definition configured_project : world :=
  {| cwd := "/project";
     present := fun _ => false;
     glob_matches := [".release-hub.json"];
     manifest := Parsed (VObj [("name", VStr "demo")]);
     npm_config_user_agent := None;
     spawn := fun _ _ => ExitCode 0;
     write_failure := None;
     type_error := Error "PACKAGE_INSTALL[pm] is not iterable" |}.

(** A project with the library installed and nothing configured. *)
Definition ready_project : world :=
  {| cwd := "/project";
     present := fun f => String.eqb f "package-lock.json";
     glob_matches := [];
     manifest := Parsed (VObj [("name", VStr "demo");
                               ("devDependencies", VObj [("release-hub", VStr "^1.0.0")])]);
     npm_config_user_agent := Some "npm/10.0.0 node/v22.0.0";
     spawn := fun _ _ => ExitCode 0;
     write_failure := None;
     type_error := Error "PACKAGE_INSTALL[pm] is not iterable" |}.

(** An event of the spinner. *)
Definition spinner_event (e : event) : Prop :=
  match e with
  | SpinnerStart _ | SpinnerStop _ => True
  | _ => False
  end.

(** The answers of the specification's worked example. *)
Definition minor_node_deno_all : list answer :=
  [ Picked "minor"; PickedMany ["node"; "deno"];
    Typed "./package.json"; Typed "./deno.json"; Picked "all" ].

Definition quoted (s : string) : string := (dquote ++ s ++ dquote)%string.

(** The text of the file for that example, line by line. *)
Definition minor_node_deno_all_text : string :=
  (join newline
     [ "{";
       "  " ++ quoted "$schema" ++ ": " ++ quoted CONFIG_SCHEMA_URL ++ ",";
       "  " ++ quoted "defaultReleaseType" ++ ": " ++ quoted "minor" ++ ",";
       "  " ++ quoted "targets" ++ ": {";
       "    " ++ quoted "node" ++ ": true,";
       "    " ++ quoted "deno" ++ ": true";
       "  },";
       "  " ++ quoted "targetsPath" ++ ": {";
       "    " ++ quoted "node" ++ ": " ++ quoted "./package.json" ++ ",";
       "    " ++ quoted "deno" ++ ": " ++ quoted "./deno.json";
       "  },";
       "  " ++ quoted "sync" ++ ": true";
       "}" ] ++ newline)%string.

(** A sync-groups session in which the only group has one target. *)
Definition one_target_group : list answer :=
  [ Picked "patch"; PickedMany ["node"; "deno"];
    Typed "./package.json"; Typed "./deno.json";
    Picked "groups"; PickedMany ["node"]; Confirmed false ].

(** A project without the library, whose install subprocess fails. *)
Definition failing_install_project : world :=
  {| cwd := "/project";
     present := fun f => String.eqb f "pnpm-lock.yaml";
     glob_matches := [];
     manifest := Parsed (VObj [("name", VStr "demo")]);
     npm_config_user_agent := None;
     spawn := fun _ _ => ExitCode 1;
     write_failure := None;
     type_error := Error "PACKAGE_INSTALL[pm] is not iterable" |}.

(** A project in which the configuration file cannot be written. *)
Definition read_only_project : world :=
  {| cwd := "/project";
     present := fun f => String.eqb f "package-lock.json";
     glob_matches := [];
     manifest := Parsed (VObj [("name", VStr "demo");
                               ("devDependencies", VObj [("release-hub", VStr "^1.0.0")])]);
     npm_config_user_agent := None;
     spawn := fun _ _ => ExitCode 0;
     write_failure := Some (Error "EACCES: permission denied, open './.release-hub.json'");
     type_error := Error "PACKAGE_INSTALL[pm] is not iterable" |}.

(** ** The revision without prompts ([src/index.js])

    The same constants, table and detector (its lines 35-54 are the
    detector above, comments apart), other log calls, a [hasLib] that
    lets the read error through, and a main block that asks nothing:
    it starts the install without waiting for it and writes a
    configuration that holds the schema reference only.  What the child
    process does after [spawn] returns is not observed by the module
    and is no part of this embedding. *)

Module Index.

Definition CONFIG_FILE : string := "./release-hub.json".

(** [const config = { CONFIG_SCHEMA_URL }]: the shorthand names the
    property after the variable (lines 22-24). *)
Definition config : list (string * value) :=
  [("CONFIG_SCHEMA_URL", VStr CONFIG_SCHEMA_URL)].

Inductive event : Type :=
| Intro (title : string)
| Outro (text : string)
| LogInfo (text : string)
| LogMessage (text : string)
| LogWarn (text : string)
| LogStep (text : string)
| LogSuccess (text : string)
| LogError (text : string)
| Spawned (cmd : string) (args : list string)
| Wrote (path content : string).

(** No prompt, no [process.exit]: a computation returns or throws, and
    adds to the trace. *)
Definition T (A : Type) : Type := list event -> res A * list event.

Definition ret {A : Type} (a : A) : T A := fun tr => (Ret a, tr).

Definition bind {A B : Type} (m : T A) (k : A -> T B) : T B :=
  fun tr =>
    match m tr with
    | (Ret a, tr') => k a tr'
    | (Throw e, tr') => (Throw e, tr')
    | (Halt h, tr') => (Halt h, tr')
    end.

Declare Scope index_scope.
Notation "x <- m ;; k" := (bind m (fun x => k))
  (at level 61, m at next level, right associativity) : index_scope.
Notation "m ;; k" := (bind m (fun _ => k))
  (at level 61, right associativity) : index_scope.
Local Open Scope index_scope.

Definition throw {A : Type} (e : exn) : T A := fun tr => (Throw e, tr).

Definition try_catch {A : Type} (m : T A) (handler : exn -> T A) : T A :=
  fun tr =>
    match m tr with
    | (Throw e, tr') => handler e tr'
    | other => other
    end.

Definition emit (e : event) : T unit := fun tr => (Ret tt, tr ++ [e]).

Definition readManifest (w : world) : T value :=
  match manifest w with
  | Unreadable e => throw e
  | Parsed pkg => ret pkg
  end.

Definition read (w : world) (v : value) (k : string) : T value :=
  match get_prop v k with
  | Some x => ret x
  | None => throw (type_error w)
  end.

(** Lines 56-85. *)
Definition hasConfig (w : world) : T bool :=
  emit (LogInfo ("Checking config files in: " ++ cwd w)) ;;
  let matches := glob_matches w in
  if (0 <? length matches)%nat then
    (emit (LogMessage ("Found config file(s): " ++ join ", " matches)) ;;
     ret true)
  else
    (emit (LogMessage "No config files found, checking package.json") ;;
     try_catch
       (pkg <- readManifest w ;;
        field <- read w pkg "release-hub" ;;
        if truthy field then
          (emit (LogMessage ("Found config under " ++ quoted "release-hub"
                             ++ " in package.json")) ;;
           ret true)
        else
          (emit (LogMessage (quoted "release-hub" ++ " field not found in package.json")) ;;
           ret false))
       (fun _ =>
          emit (LogMessage "package.json not found or unreadable") ;;
          ret false)).

(** Lines 87-93: no [try] around the read. *)
Definition hasLib (w : world) : T bool :=
  emit (LogInfo ("Checking whether you have " ++ NAME)) ;;
  pkg <- readManifest w ;;
  ret (installed pkg).

Definition destructure (w : world) (entry : option (string * list string))
  : T (string * list string) :=
  match entry with
  | Some found => ret found
  | None => throw (type_error w)
  end.

Definition writeFile (w : world) (path content : string) : T unit :=
  match write_failure w with
  | Some e => throw e
  | None => emit (Wrote path content)
  end.

(** Lines 103-119: the install branch; [spawn] is called and left. *)
Definition install (w : world) : T unit :=
  emit (LogWarn (NAME ++ " is not installed in this project")) ;;
  let pm := detectPackageManager w in
  entry <- destructure w (lookup pm PACKAGE_INSTALL) ;;
  let '(cmd, cmdArgs) := entry in
  emit (LogStep ("Installing " ++ NAME ++ " using " ++ pm)) ;;
  emit (LogInfo ("Command: " ++ cmd ++ " " ++ join " " cmdArgs)) ;;
  emit (Spawned cmd cmdArgs) ;;
  emit (LogSuccess (NAME ++ " installed successfully")).

(** Lines 96-127: the [try] block. *)
Definition body (w : world) : T unit :=
  emit (Intro "create-release-hub") ;;
  existing <- hasConfig w ;;
  (if existing : bool then throw (Error "A Release Hub config already exists in this project")
   else ret tt) ;;
  isInstalled <- hasLib w ;;
  (if negb isInstalled then install w else ret tt) ;;
  emit (LogStep ("Generating configuration file: " ++ CONFIG_FILE)) ;;
  writeFile w CONFIG_FILE (stringify (VObj config)) ;;
  emit (LogSuccess ("Created configuration file: " ++ CONFIG_FILE)) ;;
  emit (Outro "You're all set!").

(** Lines 128-130. *)
Definition report (err : exn) : T unit := emit (LogError (shown err)).

Definition main (w : world) : T unit := try_catch (body w) report.

Definition run (w : world) : res unit * list event := main w [].

Definition written (tr : list event) : list (string * string) :=
  flat_map (fun e => match e with Wrote path content => [(path, content)] | _ => [] end) tr.

Definition errors (tr : list event) : list string :=
  flat_map (fun e => match e with LogError text => [text] | _ => [] end) tr.

End Index.

(** ** Vocabulary of the further statements *)

(** The answers of a user who submits the group [first], then each group
    of [more] after a yes, and then says no. *)
Fixpoint session (first : list string) (more : list (list string)) : list answer :=
  PickedMany first ::
  match more with
  | [] => [Confirmed false]
  | g :: more' => Confirmed true :: session g more'
  end.

(** Every event a computation adds satisfies [ok]. *)
Definition emits {A : Type} (ok : event -> Prop) (m : M A) : Prop :=
  forall s, exists d, trace (snd (m s)) = trace s ++ d /\ Forall ok d.

(** An event that neither starts a process nor writes a file. *)
Definition harmless (e : event) : Prop :=
  match e with
  | Spawned _ _ | Wrote _ _ => False
  | _ => True
  end.

(** The only process a run may start is the table's command for the
    detected manager; the only file it may write is the configuration
    file. *)
Definition permitted (w : world) (e : event) : Prop :=
  match e with
  | Spawned cmd args => lookup (detectPackageManager w) PACKAGE_INSTALL = Some (cmd, args)
  | Wrote path _ => path = CONFIG_FILE
  | _ => True
  end.

Definition install_question (w : world) : prompt :=
  Confirm ("Would you like to install " ++ NAME ++ " using "
           ++ detectPackageManager w ++ "?")%string.

Definition release_question : prompt := Select "Select default release type:".

Definition sync_question : prompt := Select "How should versions be synchronized?".

Definition path_question (t : string) : prompt := Text ("Path for " ++ t ++ ":")%string.

(** A project without the library whose install subprocess succeeds. *)
Definition fresh_project : world :=
  {| cwd := "/project";
     present := fun f => String.eqb f "yarn.lock";
     glob_matches := [];
     manifest := Parsed (VObj [("name", VStr "demo")]);
     npm_config_user_agent := None;
     spawn := fun _ _ => ExitCode 0;
     write_failure := None;
     type_error := Error "PACKAGE_INSTALL[pm] is not iterable" |}.

(** The shell that runs the install command can be started: [spawn]
    itself does not fail. *)
Definition shell_starts (w : world) : Prop :=
  forall cmd args e, spawn w cmd args <> SpawnError e.

(** An event of [index.js] that is neither a write nor an error. *)
Definition index_quiet (e : Index.event) : Prop :=
  match e with
  | Index.Wrote _ _ | Index.LogError _ => False
  | _ => True
  end.

(** An event other than the start of a subprocess. *)
Definition unspawned (e : event) : Prop :=
  match e with
  | Spawned _ _ => False
  | _ => True
  end.

(** From the state [s] the computation adds only events of the class
    [ok]. *)
Definition emits_from {A : Type} (ok : event -> Prop) (m : M A) (s : state) : Prop :=
  exists d, trace (snd (m s)) = trace s ++ d /\ Forall ok d.

(** The selections submitted at the sync-group question, in order. *)
Definition selections (d : list event) : list (list string) :=
  flat_map (fun e => match e with
                     | Asked (Multiselect "Select targets to sync together:") (PickedMany g) =>
                         [g]
                     | _ => []
                     end) d.

(** * Properties *)

(** ** Package-manager detection *)

Lemma in_lockfile_names (f : string) :
  In f lockfile_names ->
  f = "pnpm-lock.yaml" \/ f = "yarn.lock" \/ f = "bun.lock" \/
  f = "bun.lockb" \/ f = "package-lock.json".
Proof.
  unfold lockfile_names; simpl.
  intros [H | [H | [H | [H | [H | []]]]]]; subst; auto 6.
Qed.

Lemma no_lockfile_probes (w : world) :
  no_lockfile w ->
  present w "pnpm-lock.yaml" = false /\ present w "yarn.lock" = false /\
  present w "bun.lock" = false /\ present w "bun.lockb" = false /\
  present w "package-lock.json" = false.
Proof.
  intros H; repeat split; apply H; unfold lockfile_names; simpl; auto 6.
Qed.

Lemma detect_without_lockfile (w : world) :
  no_lockfile w ->
  detectPackageManager w =
    match packageManagerField w with
    | Some pm => pm
    | None =>
        let ua := npm_config_user_agent w in
        if uaStartsWith ua "pnpm" then "pnpm"
        else if uaStartsWith ua "yarn" then "yarn"
        else if uaStartsWith ua "bun" then "bun"
        else "npm"
    end.
Proof.
  intros H. destruct (no_lockfile_probes w H) as (E1 & E2 & E3 & E4 & E5).
  unfold detectPackageManager, exists_. rewrite E1, E2, E3, E4, E5.
  destruct (packageManagerField w); [reflexivity|].
  cbv zeta. destruct (uaStartsWith _ "npm"); reflexivity.
Qed.

(** C4.  Whenever at least one lockfile is present, the detector
    answers with the manager of the first present lockfile in the order
    pnpm-lock.yaml, yarn.lock, bun.lock, bun.lockb, package-lock.json,
    and that answer depends on nothing but the lockfile probes: any
    other project with the same lockfiles, whatever its manifest and
    environment, gets the same answer. *)
Theorem lockfile_priority (w : world) :
  (exists f, In f lockfile_names /\ present w f = true) ->
  exists before f pm after,
    lockfile_order = before ++ (f, pm) :: after /\
    present w f = true /\
    (forall g, In g (map fst before) -> present w g = false) /\
    detectPackageManager w = pm /\
    forall w',
      (forall g, In g lockfile_names -> present w' g = present w g) ->
      detectPackageManager w' = pm.
Proof.
  intros (f & Hin & Hf).
  destruct (present w "pnpm-lock.yaml") eqn:E1.
  { exists [], "pnpm-lock.yaml", "pnpm"; eexists.
    split; [reflexivity|]. split; [assumption|].
    split; [intros g []|].
    unfold detectPackageManager, exists_. rewrite E1. split; [reflexivity|].
    intros w' Hw. rewrite (Hw "pnpm-lock.yaml"), E1 by (cbv; auto 6). reflexivity. }
  destruct (present w "yarn.lock") eqn:E2.
  { exists [("pnpm-lock.yaml", "pnpm")], "yarn.lock", "yarn"; eexists.
    split; [reflexivity|]. split; [assumption|].
    split; [intros g [<- | []]; assumption|].
    unfold detectPackageManager, exists_. rewrite E1, E2. split; [reflexivity|].
    intros w' Hw.
    rewrite (Hw "pnpm-lock.yaml"), E1, (Hw "yarn.lock"), E2 by (cbv; auto 6).
    reflexivity. }
  destruct (present w "bun.lock") eqn:E3.
  { exists [("pnpm-lock.yaml", "pnpm"); ("yarn.lock", "yarn")], "bun.lock", "bun"; eexists.
    split; [reflexivity|]. split; [assumption|].
    split; [intros g [<- | [<- | []]]; assumption|].
    unfold detectPackageManager, exists_. rewrite E1, E2, E3. split; [reflexivity|].
    intros w' Hw.
    rewrite (Hw "pnpm-lock.yaml"), E1, (Hw "yarn.lock"), E2, (Hw "bun.lock"), E3
      by (cbv; auto 6).
    reflexivity. }
  destruct (present w "bun.lockb") eqn:E4.
  { exists [("pnpm-lock.yaml", "pnpm"); ("yarn.lock", "yarn"); ("bun.lock", "bun")],
      "bun.lockb", "bun"; eexists.
    split; [reflexivity|]. split; [assumption|].
    split; [intros g [<- | [<- | [<- | []]]]; assumption|].
    unfold detectPackageManager, exists_. rewrite E1, E2, E3, E4. split; [reflexivity|].
    intros w' Hw.
    rewrite (Hw "pnpm-lock.yaml"), E1, (Hw "yarn.lock"), E2, (Hw "bun.lock"), E3,
      (Hw "bun.lockb"), E4 by (cbv; auto 6).
    reflexivity. }
  destruct (present w "package-lock.json") eqn:E5.
  { exists [("pnpm-lock.yaml", "pnpm"); ("yarn.lock", "yarn"); ("bun.lock", "bun");
            ("bun.lockb", "bun")], "package-lock.json", "npm"; eexists.
    split; [reflexivity|]. split; [assumption|].
    split; [intros g [<- | [<- | [<- | [<- | []]]]]; assumption|].
    unfold detectPackageManager, exists_. rewrite E1, E2, E3, E4, E5.
    split; [reflexivity|].
    intros w' Hw.
    rewrite (Hw "pnpm-lock.yaml"), E1, (Hw "yarn.lock"), E2, (Hw "bun.lock"), E3,
      (Hw "bun.lockb"), E4, (Hw "package-lock.json"), E5 by (cbv; auto 6).
    reflexivity. }
  exfalso.
  destruct (in_lockfile_names f Hin) as [-> | [-> | [-> | [-> | ->]]]]; congruence.
Qed.

Lemma lockfile_priority_witness :
  (exists f, In f lockfile_names /\ present yarn_and_npm_project f = true) /\
  exists before f pm after,
    lockfile_order = before ++ (f, pm) :: after /\
    present yarn_and_npm_project f = true /\
    (forall g, In g (map fst before) -> present yarn_and_npm_project g = false) /\
    detectPackageManager yarn_and_npm_project = pm /\
    forall w',
      (forall g, In g lockfile_names ->
                 present w' g = present yarn_and_npm_project g) ->
      detectPackageManager w' = pm.
Proof.
  assert (H : exists f, In f lockfile_names /\ present yarn_and_npm_project f = true).
  { exists "yarn.lock". split; [cbv; auto | reflexivity]. }
  split; [exact H | exact (lockfile_priority yarn_and_npm_project H)].
Defined.

Lemma split_before_at (s : string) : before_at s (fst (split "@" s)).
Proof.
  induction s as [|c rest IH]; simpl.
  - split; [intros c [] | left; reflexivity].
  - destruct (split "@" rest) as [hd tl] eqn:E. simpl in IH.
    destruct (Ascii.eqb c "@") eqn:Ec; simpl.
    + apply Ascii.eqb_eq in Ec. subst c.
      split; [intros c [] | right; exists rest; reflexivity].
    + apply Ascii.eqb_neq in Ec. destruct IH as [Hno Hs].
      split.
      * intros c' [<- | Hin]; [assumption | apply Hno, Hin].
      * destruct Hs as [-> | [rest' ->]]; [left; reflexivity|].
        right. exists rest'. reflexivity.
Qed.

Lemma declared_field (w : world) (s : string) :
  declares_manager w s -> packageManagerField w = Some (fst (split "@" s)).
Proof.
  intros (pkg & Hm & Hg & Hs). unfold packageManagerField. rewrite Hm, Hg. simpl.
  destruct (String.eqb_spec s EmptyString); [contradiction | reflexivity].
Qed.

Lemma undeclared_field (w : world) :
  (forall s, ~ declares_manager w s) -> packageManagerField w = None.
Proof.
  intros H. unfold packageManagerField.
  destruct (manifest w) as [e | pkg] eqn:Hm; [reflexivity|].
  destruct (get_prop pkg "packageManager") as [field|] eqn:Hg; [|reflexivity].
  destruct (truthy field) eqn:Ht; [|reflexivity].
  destruct field; try reflexivity.
  exfalso. apply (H s). exists pkg. repeat split; try assumption.
  intros ->. discriminate Ht.
Qed.

Lemma startsWith_head (u : string) (a : ascii) (p : string) :
  startsWith u (String a p) = true -> exists u', u = String a u'.
Proof.
  unfold startsWith. destruct u as [|c u']; simpl; [discriminate|].
  destruct (ascii_dec a c) as [-> | _]; [eauto | discriminate].
Qed.

(** C7.  With no lockfile in the project, detection takes what stands
    before the first [@] of the manifest's (non-empty, string)
    [packageManager] field; when the manifest cannot be read or parsed,
    or declares no such field, it takes the manager whose name prefixes
    the [npm_config_user_agent] hint, trying pnpm, yarn, bun and npm;
    and it answers npm when the hint is unset or starts with none of
    them. *)
Theorem detection_fallback (w : world) :
  no_lockfile w ->
  (forall s, declares_manager w s -> before_at s (detectPackageManager w)) /\
  ((forall s, ~ declares_manager w s) ->
   match npm_config_user_agent w with
   | Some ua =>
       (startsWith ua "pnpm" = true -> detectPackageManager w = "pnpm") /\
       (startsWith ua "yarn" = true -> detectPackageManager w = "yarn") /\
       (startsWith ua "bun" = true -> detectPackageManager w = "bun") /\
       (startsWith ua "npm" = true -> detectPackageManager w = "npm") /\
       (startsWith ua "pnpm" = false -> startsWith ua "yarn" = false ->
        startsWith ua "bun" = false -> startsWith ua "npm" = false ->
        detectPackageManager w = "npm")
   | None => detectPackageManager w = "npm"
   end).
Proof.
  intros Hno. rewrite (detect_without_lockfile w Hno). split.
  - intros s Hs. rewrite (declared_field w s Hs). apply split_before_at.
  - intros Hnone. rewrite (undeclared_field w Hnone).
    destruct (npm_config_user_agent w) as [ua|]; [|reflexivity].
    cbn [uaStartsWith]. repeat split.
    + intros ->. reflexivity.
    + intros H. destruct (startsWith_head _ _ _ H) as [u' ->].
      unfold startsWith in *. simpl in *. rewrite H. reflexivity.
    + intros H. destruct (startsWith_head _ _ _ H) as [u' ->].
      unfold startsWith in *. simpl in *. rewrite H. reflexivity.
    + intros H. destruct (startsWith_head _ _ _ H) as [u' ->].
      unfold startsWith in *. simpl in *. reflexivity.
    + intros -> -> -> _. reflexivity.
Qed.

Lemma detection_fallback_witness :
  no_lockfile yarn_manifest_project /\
  declares_manager yarn_manifest_project "yarn@3.0.0" /\
  before_at "yarn@3.0.0" (detectPackageManager yarn_manifest_project) /\
  detectPackageManager yarn_manifest_project = "yarn".
Proof.
  assert (Hno : no_lockfile yarn_manifest_project) by (intros f _; reflexivity).
  assert (Hd : declares_manager yarn_manifest_project "yarn@3.0.0").
  { eexists. split; [reflexivity | split; [reflexivity | discriminate]]. }
  split; [exact Hno|]. split; [exact Hd|].
  split; [exact (proj1 (detection_fallback yarn_manifest_project Hno) _ Hd)
         | reflexivity].
Defined.

(** C3.  On a project with no lockfile whose manifest declares
    [packageManager: "foo@1.0.0"], the detector answers [foo], which is
    none of npm, yarn, pnpm, bun. *)
Theorem detect_leaves_enumeration :
  no_lockfile unknown_manager_project /\
  detectPackageManager unknown_manager_project = "foo" /\
  ~ In (detectPackageManager unknown_manager_project) managers.
Proof.
  split; [intros f _; reflexivity|]. split; [reflexivity|].
  cbv. intros [H | [H | [H | [H | []]]]]; discriminate H.
Qed.

(** ** Dependency presence *)

Lemma truthy_or_else (a b : value) : truthy (or_else a b) = truthy a || truthy b.
Proof. unfold or_else. destruct (truthy a) eqn:E; [exact E | reflexivity]. Qed.

Lemma truthy_section (pkg : value) (section : string) :
  section = "dependencies" \/ section = "devDependencies" ->
  truthy (opt_get (opt_get pkg section) NAME) = true <->
  exists props deps v,
    pkg = VObj props /\ lookup section props = Some (VObj deps) /\
    lookup NAME deps = Some v /\ truthy v = true.
Proof.
  intros Hsec. split.
  - destruct pkg as [| | b | z | s | items | props];
      try (destruct Hsec as [-> | ->]; discriminate).
    unfold opt_get at 2. simpl.
    destruct (lookup section props) as [d|] eqn:Hl; [|discriminate].
    destruct d as [| | b | z | s | items | deps]; try discriminate.
    unfold opt_get. simpl.
    destruct (lookup NAME deps) as [v|] eqn:Hv; [|discriminate].
    intros Ht. exists props, deps, v. auto.
  - intros (props & deps & v & -> & Hl & Hv & Ht).
    unfold opt_get. simpl. rewrite Hl. simpl. rewrite Hv. exact Ht.
Qed.

Lemma installed_iff (pkg : value) :
  installed pkg = true <->
  exists props section deps v,
    pkg = VObj props /\
    (section = "dependencies" \/ section = "devDependencies") /\
    lookup section props = Some (VObj deps) /\
    lookup NAME deps = Some v /\ truthy v = true.
Proof.
  unfold installed. rewrite truthy_or_else, orb_true_iff.
  rewrite (truthy_section pkg "dependencies") by auto.
  rewrite (truthy_section pkg "devDependencies") by auto.
  split.
  - intros [(props & deps & v & H) | (props & deps & v & H)];
      destruct H as (-> & Hl & Hv & Ht).
    + exists props, "dependencies", deps, v. auto 6.
    + exists props, "devDependencies", deps, v. auto 6.
  - intros (props & section & deps & v & -> & [-> | ->] & Hl & Hv & Ht);
      [left | right]; exists props, deps, v; auto.
Qed.

(** What [hasLib] answers, and that it always answers. *)
Lemma hasLib_returns (w : world) (s : state) :
  exists d,
    hasLib w s =
      (Ret match manifest w with
           | Unreadable _ => false
           | Parsed pkg => installed pkg
           end,
       {| pending := pending s; trace := trace s ++ d |}) /\
    exists t1 t2, d = [SpinnerStart t1; SpinnerStop t2].
Proof.
  unfold hasLib.
  destruct (manifest w) as [e | pkg]; eexists; split;
    try (cbn; rewrite <- app_assoc; cbn; reflexivity); eauto.
Qed.

(** C9, as the code has it.  [hasLib] always returns a boolean.  It is
    [true] exactly when the manifest parses to an object in which
    [release-hub] is a key with a truthy value of the [dependencies] or
    of the [devDependencies] object, and [false] when the manifest is
    absent or unreadable. *)
Theorem hasLib_truthy_dependency (w : world) (s : state) :
  exists b,
    fst (hasLib w s) = Ret b /\
    (b = true <-> depends_on_library w) /\
    ((exists e, manifest w = Unreadable e) -> b = false).
Proof.
  destruct (hasLib_returns w s) as (d & -> & _). eexists. split; [reflexivity|].
  unfold depends_on_library.
  destruct (manifest w) as [e | pkg] eqn:Hm.
  - split; [|reflexivity]. split; [discriminate|].
    intros (props & section & deps & v & H & _). discriminate H.
  - split; [|intros [e H]; discriminate H].
    rewrite installed_iff. split.
    + intros (props & section & deps & v & -> & H). exists props, section, deps, v. auto.
    + intros (props & section & deps & v & Hp & H). injection Hp as ->.
      exists props, section, deps, v. auto.
Qed.

(** C9, as the specification words it, fails: this manifest has
    [release-hub] as a key of [dependencies], with the empty version
    range as its value, and [hasLib] answers [false]. *)
Lemma hasLib_key_with_empty_range :
  declares_library empty_range_project /\
  fst (hasLib empty_range_project (start [])) = Ret false.
Proof.
  split; [|reflexivity].
  eexists _, "dependencies", _. split; [reflexivity|].
  split; [left; reflexivity|]. split; [reflexivity|]. cbv. auto.
Qed.

(** ** A logic of runs *)

Lemma quiet_nil (w : world) : quiet w [].
Proof. constructor. Qed.

Lemma quiet_app (w : world) (d1 d2 : list event) :
  quiet w d1 -> quiet w d2 -> quiet w (d1 ++ d2).
Proof. intros H1 H2. apply Forall_app. split; assumption. Qed.

Lemma quiet_one (w : world) (e : event) : calm w e -> quiet w [e].
Proof. intros H. constructor; [exact H | constructor]. Qed.

Lemma quiet_written (w : world) (d : list event) : quiet w d -> written d = [].
Proof.
  induction 1 as [|e d He _ IH]; [reflexivity|].
  simpl. rewrite IH. destruct e; try reflexivity; destruct He.
Qed.

Lemma quiet_errors (w : world) (d : list event) : quiet w d -> errors d = [].
Proof.
  induction 1 as [|e d He _ IH]; [reflexivity|].
  simpl. rewrite IH. destruct e; try reflexivity; destruct He.
Qed.

Lemma quiet_not_cancelled (w : world) (d : list event) (p : prompt) :
  quiet w d -> ~ In (Asked p Cancel) d.
Proof.
  intros H Hin. unfold quiet in H. rewrite Forall_forall in H.
  exact (H _ Hin).
Qed.

Lemma quiet_spawned (w : world) (d : list event) (cmd : string) (args : list string) :
  quiet w d -> In (Spawned cmd args) d -> spawn_rejection w cmd args = None.
Proof.
  intros H Hin. unfold quiet in H. rewrite Forall_forall in H.
  exact (H _ Hin).
Qed.

Lemma written_app (d1 d2 : list event) : written (d1 ++ d2) = written d1 ++ written d2.
Proof. apply flat_map_app. Qed.

Lemma errors_app (d1 d2 : list event) : errors (d1 ++ d2) = errors d1 ++ errors d2.
Proof. apply flat_map_app. Qed.

Lemma assembled_app (cfg : list (string * value)) (d1 d2 d3 : list event) :
  assembled cfg d2 -> assembled cfg (d1 ++ d2 ++ d3).
Proof.
  intros (release & askTargets & tp & sync & Hin & H).
  exists release, askTargets, tp, sync. split; [|exact H].
  rewrite !in_app_iff. auto.
Qed.

Lemma failure_prepend (w : world) (e : exn) (d1 d2 : list event) :
  quiet w d1 -> failure w e d2 -> failure w e (d1 ++ d2).
Proof.
  intros Hq Hf. destruct Hf as [d Hd Hc | d Hd Hu | d cmd args e Hd Hr | d e Hd Hw].
  - apply ConfigExists; [apply quiet_app|]; assumption.
  - apply UnknownManager; [apply quiet_app|]; assumption.
  - rewrite app_assoc. apply InstallFailed; [apply quiet_app|]; assumption.
  - rewrite app_assoc. apply WriteFailed; [apply quiet_app|]; assumption.
Qed.

Lemma failure_unwritten (w : world) (e : exn) (d : list event) :
  failure w e d -> written d = [] /\ errors d = [] /\ forall p, ~ In (Asked p Cancel) d.
Proof.
  intros [d0 Hd _ | d0 Hd _ | d0 cmd args e0 Hd _ | d0 e0 Hd _].
  - repeat split; [eapply quiet_written | eapply quiet_errors | intros p; eapply quiet_not_cancelled]; eassumption.
  - repeat split; [eapply quiet_written | eapply quiet_errors | intros p; eapply quiet_not_cancelled]; eassumption.
  - rewrite written_app, errors_app, (quiet_written w d0 Hd), (quiet_errors w d0 Hd).
    repeat split. intros p Hin. apply in_app_or in Hin. destruct Hin as [Hin | [Hin | []]].
    + exact (quiet_not_cancelled w d0 p Hd Hin).
    + discriminate Hin.
  - rewrite written_app, errors_app, (quiet_written w d0 Hd), (quiet_errors w d0 Hd).
    repeat split. intros p Hin. apply in_app_or in Hin.
    destruct Hin as [Hin | [Hin | [Hin | []]]].
    + exact (quiet_not_cancelled w d0 p Hd Hin).
    + discriminate Hin.
    + discriminate Hin.
Qed.

Section Rules.

Context (w : world).

Lemma sound_ret {A : Type} (a : A) (P : A -> list event -> Prop) :
  P a [] -> sound w (ret a) P.
Proof. intros H s. exists []. split; [symmetry; apply app_nil_r | exact H]. Qed.

Lemma sound_weaken {A : Type} (m : M A) (P P' : A -> list event -> Prop) :
  sound w m P -> (forall a d, P a d -> P' a d) -> sound w m P'.
Proof.
  intros Hm Himp s. destruct (Hm s) as (d & Ht & Ho). exists d. split; [exact Ht|].
  destruct (fst (m s)) as [a | e | h]; simpl in *; auto.
Qed.

Lemma sound_bind {A B : Type} (m : M A) (k : A -> M B)
  (P1 : A -> list event -> Prop) (P : B -> list event -> Prop) :
  sound w m P1 ->
  (forall a d1, P1 a d1 ->
     quiet w d1 /\ sound w (k a) (fun b d2 => P b (d1 ++ d2))) ->
  sound w (bind m k) P.
Proof.
  intros Hm Hk s. unfold bind. destruct (Hm s) as (d1 & Ht1 & Ho1).
  destruct (m s) as [[a | e | h] s1]; simpl in *.
  - destruct (Hk a d1 Ho1) as [Hq Hka]. destruct (Hka s1) as (d2 & Ht2 & Ho2).
    exists (d1 ++ d2). split; [rewrite Ht2, Ht1; symmetry; apply app_assoc|].
    destruct (fst (k a s1)) as [b | e | [code | |]]; simpl in *.
    + exact Ho2.
    + apply failure_prepend; assumption.
    + destruct Ho2 as (Hc & d0 & p & Hq0 & ->). split; [exact Hc|].
      exists (d1 ++ d0), p. split; [apply quiet_app; assumption | apply app_assoc].
    + apply quiet_app; assumption.
    + apply quiet_app; assumption.
  - exists d1. auto.
  - exists d1. auto.
Qed.

(** The common case: a quiet step followed by a computation whose
    promise survives a quiet prefix. *)
Lemma sound_seq {A B : Type} (m : M A) (k : A -> M B)
  (Q : A -> Prop) (P : B -> list event -> Prop) :
  sound w m (fun a d => quiet w d /\ Q a) ->
  (forall b d1 d2, quiet w d1 -> P b d2 -> P b (d1 ++ d2)) ->
  (forall a, Q a -> sound w (k a) P) ->
  sound w (bind m k) P.
Proof.
  intros Hm Hpre Hk. apply sound_bind with (P1 := fun a d => quiet w d /\ Q a).
  - exact Hm.
  - intros a d1 [Hq HQ]. split; [exact Hq|].
    apply sound_weaken with (P := P); [apply Hk, HQ|].
    intros b d2. apply Hpre, Hq.
Qed.

Lemma sound_emit (e : event) : calm w e -> sound w (emit e) (fun _ d => quiet w d /\ True).
Proof.
  intros He s. exists [e]. split; [reflexivity|]. simpl. split; [apply quiet_one, He | exact I].
Qed.

Lemma sound_throw {A : Type} (e : exn) (P : A -> list event -> Prop) :
  failure w e [] -> sound w (throw e) P.
Proof. intros H s. exists []. split; [symmetry; apply app_nil_r | exact H]. Qed.

Lemma sound_bind_ret {A B : Type} (a : A) (k : A -> M B)
  (P : B -> list event -> Prop) :
  sound w (k a) P -> sound w (bind (ret a) k) P.
Proof. intros H s. exact (H s). Qed.

Lemma sound_bind_throw {A B : Type} (e : exn) (k : A -> M B)
  (P : B -> list event -> Prop) :
  failure w e [] -> sound w (bind (throw e) k) P.
Proof. intros H s. exact (sound_throw e P H s). Qed.

(** A prompt followed by [exitOnCancel] and the rest of the program. *)
Lemma sound_ask {A B : Type} (p : M (prompted A)) (k : A -> M B)
  (Q : A -> list event -> Prop) (P : B -> list event -> Prop) :
  prompt_sound w p Q ->
  (forall a d1, quiet w d1 -> Q a d1 -> sound w (k a) (fun b d2 => P b (d1 ++ d2))) ->
  sound w (bind p (fun result => bind (exitOnCancel result) k)) P.
Proof.
  intros Hp Hk s. unfold bind. destruct (Hp s) as (d1 & Ht1 & Ho1).
  destruct (p s) as [[[|a] | e | [code | |]] s1]; simpl in *; try contradiction.
  - destruct Ho1 as (d0 & q & Hq & ->).
    unfold exitOnCancel, bind, log_error, emit, exit; simpl.
    exists (d0 ++ [Asked q Cancel; LogError cancelled]). split.
    + rewrite Ht1, <- !app_assoc. reflexivity.
    + split; [reflexivity|]. exists d0, q. auto.
  - destruct Ho1 as (Hq & HQ).
    destruct (Hk a d1 Hq HQ s1) as (d2 & Ht2 & Ho2).
    exists (d1 ++ d2). unfold exitOnCancel, bind, ret. split.
    + rewrite Ht2, Ht1. symmetry. apply app_assoc.
    + destruct (fst (k a s1)) as [b | e | [code | |]]; simpl in *.
      * exact Ho2.
      * apply failure_prepend; assumption.
      * destruct Ho2 as (Hc & d0 & q & Hq0 & ->). split; [exact Hc|].
        exists (d1 ++ d0), q. split; [apply quiet_app; assumption | apply app_assoc].
      * apply quiet_app; assumption.
      * apply quiet_app; assumption.
  - exists d1. auto.
  - exists d1. auto.
Qed.

End Rules.

(** ** The prompts *)

Lemma member_In (v : string) (l : list string) : member v l = true <-> In v l.
Proof.
  unfold member. rewrite existsb_exists. split.
  - intros (x & Hin & Heq). apply String.eqb_eq in Heq. subst. exact Hin.
  - intros H. exists v. split; [exact H | apply String.eqb_refl].
Qed.

Ltac prompt_cases s a :=
  intros s; unfold bind, next, ret, stuck;
  destruct (pending s) as [|a ?]; simpl;
  [ exists []; rewrite app_nil_r; split; auto using quiet_nil
  | destruct a; simpl ].

Ltac one_event := eexists [_]; split; [reflexivity|].

Ltac cancelled_at p := one_event; exists [], p; split; [apply quiet_nil | reflexivity].

Ltac refused := one_event; apply quiet_one; exact I.

Lemma confirm_sound (w : world) (message : string) :
  prompt_sound w (confirm message)
    (fun b d => d = [Asked (Confirm message) (Confirmed b)]).
Proof.
  unfold confirm. prompt_cases s a; try refused.
  - cancelled_at (Confirm message).
  - one_event. split; [apply quiet_one; exact I | reflexivity].
Qed.

Lemma select_sound (w : world) (message : string) (choices : list string) :
  prompt_sound w (select message choices) (fun v _ => In v choices).
Proof.
  unfold select. prompt_cases s a; try refused.
  - cancelled_at (Select message).
  - destruct (member v choices) eqn:Hm; simpl; [|refused].
    one_event. split; [apply quiet_one; exact I | apply member_In, Hm].
Qed.

Lemma multiselect_sound (w : world) (message : string) (choices : list string) :
  prompt_sound w (multiselect message choices)
    (fun vs d => d = [Asked (Multiselect message) (PickedMany vs)] /\
                 forall t, In t vs -> In t choices).
Proof.
  unfold multiselect. prompt_cases s a; try refused.
  - cancelled_at (Multiselect message).
  - destruct (forallb _ vs) eqn:Hm; simpl; [|refused].
    one_event. split; [apply quiet_one; exact I|]. split; [reflexivity|].
    intros t Ht. rewrite forallb_forall in Hm. apply member_In, Hm, Ht.
Qed.

Lemma text_from_sound (w : world) (message : string) (answers : list answer) :
  forall tr, exists d,
    trace (snd (text_from message validate answers tr)) = tr ++ d /\
    match fst (text_from message validate answers tr) with
    | Ret (Value v) => quiet w d /\ validate v = None
    | Ret CancelSymbol => exists d0 q, quiet w d0 /\ d = d0 ++ [Asked q Cancel]
    | Throw _ => False
    | Halt (Exited _) => False
    | Halt _ => quiet w d
    end.
Proof.
  induction answers as [|a rest IH]; intros tr; simpl.
  - exists []. rewrite app_nil_r. auto using quiet_nil.
  - destruct a; simpl; try refused.
    + cancelled_at (Text message).
    + destruct (validate s) eqn:Hv.
      * destruct (IH (tr ++ [Asked (Text message) (Typed s)])) as (d & Ht & Ho).
        exists (Asked (Text message) (Typed s) :: d).
        split; [rewrite Ht, <- app_assoc; reflexivity|].
        destruct (fst (text_from _ _ rest _)) as [[|v] | e | [code | |]];
          try contradiction.
        -- destruct Ho as (d0 & q & Hq & ->).
           exists (Asked (Text message) (Typed s) :: d0), q.
           split; [constructor; [exact I | exact Hq] | reflexivity].
        -- destruct Ho as (Hq & Hval).
           split; [constructor; [exact I | exact Hq] | exact Hval].
        -- constructor; [exact I | exact Ho].
        -- constructor; [exact I | exact Ho].
      * one_event. split; [apply quiet_one; exact I | exact Hv].
Qed.

Lemma text_sound (w : world) (message : string) :
  prompt_sound w (text message validate) (fun v _ => validate v = None).
Proof. intros s. unfold text. apply text_from_sound. Qed.

(** ** Objects and their keys *)

Lemma keys_obj_set (o : list (string * value)) (k : string) (v : value) :
  keys (obj_set o k v) = add_key (keys o) k.
Proof.
  unfold add_key, member. induction o as [|[k' v'] rest IH]; simpl; [reflexivity|].
  destruct (String.eqb k k') eqn:E; simpl; [reflexivity|].
  unfold keys in *. rewrite IH.
  destruct (existsb (String.eqb k) (map fst rest)); reflexivity.
Qed.

Lemma keys_fold_obj_set (v : string -> value) (l : list string) :
  forall o,
    keys (fold_left (fun o e => obj_set o (fst e) (snd e)) (map (fun t => (t, v t)) l) o)
    = fold_left add_key l (keys o).
Proof.
  induction l as [|t rest IH]; intros o; simpl; [reflexivity|].
  rewrite IH, keys_obj_set. reflexivity.
Qed.

Lemma keys_fromEntries (l : list string) :
  keys (fromEntries (map (fun t => (t, VBool true)) l)) = distinct l.
Proof. apply (keys_fold_obj_set (fun _ => VBool true)). Qed.

Lemma obj_set_Forall (P : string * value -> Prop) (o : list (string * value))
  (k : string) (v : value) :
  Forall P o -> (forall k', P (k', v)) -> Forall P (obj_set o k v).
Proof.
  intros Ho Hv. induction Ho as [|[k' v'] rest Hh Ht IH]; simpl.
  - constructor; [apply Hv | constructor].
  - destruct (String.eqb k k'); constructor; auto.
Qed.

Lemma add_key_In (ks : list string) (k x : string) :
  In x (add_key ks k) <-> In x ks \/ x = k.
Proof.
  unfold add_key. destruct (member k ks) eqn:E.
  - apply member_In in E. split; [auto | intros [H | ->]; assumption].
  - rewrite in_app_iff. simpl. split.
    + intros [H | [<- | []]]; auto.
    + intros [H | ->]; auto.
Qed.

Lemma fold_add_key_In (l : list string) :
  forall ks x, In x (fold_left add_key l ks) <-> In x ks \/ In x l.
Proof.
  induction l as [|k rest IH]; intros ks x; simpl.
  - split; [auto | intros [H | []]; exact H].
  - rewrite IH, add_key_In. split.
    + intros [[H | ->] | H]; auto.
    + intros [H | [<- | H]]; auto.
Qed.

Lemma distinct_In (l : list string) (x : string) : In x (distinct l) <-> In x l.
Proof.
  unfold distinct. rewrite fold_add_key_In. simpl. split; [intros [[] | H]; exact H | auto].
Qed.

Lemma fold_add_key_NoDup (l : list string) :
  forall ks, NoDup (ks ++ l) -> fold_left add_key l ks = ks ++ l.
Proof.
  induction l as [|k rest IH]; intros ks H; simpl.
  - symmetry. apply app_nil_r.
  - assert (Hk : member k ks = false).
    { destruct (member k ks) eqn:E; [|reflexivity].
      apply member_In in E. apply NoDup_remove_2 in H.
      exfalso. apply H. apply in_or_app. auto. }
    unfold add_key at 2. rewrite Hk.
    replace (ks ++ k :: rest) with ((ks ++ [k]) ++ rest) in *
      by (rewrite <- app_assoc; reflexivity).
    apply IH, H.
Qed.

Lemma distinct_NoDup (l : list string) : NoDup l -> distinct l = l.
Proof. intros H. apply (fold_add_key_NoDup l []). exact H. Qed.

(** ** The loops of the assembler *)

Lemma validate_truthy (v : string) : validate v = None -> truthy (VStr v) = true.
Proof.
  unfold validate. destruct v as [|c rest]; [discriminate | reflexivity].
Qed.

Lemma collectPaths_sound (w : world) (askTargets : list string) :
  forall acc,
    sound w (collectPaths askTargets acc)
      (fun tp d => quiet w d /\
                   keys tp = fold_left add_key askTargets (keys acc) /\
                   (Forall path_entry acc -> Forall path_entry tp)).
Proof.
  induction askTargets as [|t rest IH]; intros acc; simpl.
  - apply sound_ret. auto using quiet_nil.
  - apply sound_ask with (Q := fun v _ => validate v = None); [apply text_sound|].
    intros r d1 Hq Hr.
    eapply sound_weaken; [apply IH|].
    intros tp d2 (Hq2 & Hk & Hp). split; [apply quiet_app; assumption|].
    rewrite keys_obj_set in Hk. split; [exact Hk|].
    intros Hacc. apply Hp. apply obj_set_Forall; [exact Hacc|].
    intros k'. unfold or_else. rewrite (validate_truthy r Hr).
    exists r. auto.
Qed.

(** One pass of the sync-groups loop: it never throws, it never logs
    the size complaint, and when it comes back an answer is gone. *)
Lemma syncGroupsBody_sound (w : world) (syncGroups : list (list string)) (s : state) :
  exists d,
    trace (snd (syncGroupsBody w syncGroups s)) = trace s ++ d /\
    match fst (syncGroupsBody w syncGroups s) with
    | Ret _ =>
        quiet w d /\
        length (pending (snd (syncGroupsBody w syncGroups s))) < length (pending s)
    | Throw _ => False
    | Halt (Exited code) =>
        code = 1%Z /\
        exists d0 p, quiet w d0 /\ d = d0 ++ [Asked p Cancel; LogError cancelled]
    | Halt _ => quiet w d
    end.
Proof.
  unfold syncGroupsBody, multiselect, confirm, exitOnCancel, read, bind, next, ret,
    stuck, log_error, emit, exit.
  destruct (pending s) as [|a rest] eqn:E; simpl.
  { exists []. rewrite app_nil_r. auto using quiet_nil. }
  destruct a; simpl; try (eexists [_]; split; [reflexivity | apply quiet_one; exact I]).
  { eexists [_; _]. split; [rewrite <- app_assoc; reflexivity|].
    split; [reflexivity|]. exists [], (Multiselect "Select targets to sync together:").
    split; [apply quiet_nil | reflexivity]. }
  destruct (forallb _ vs); simpl;
    [|eexists [_]; split; [reflexivity | apply quiet_one; exact I]].
  destruct rest as [|b rest']; simpl.
  { eexists [_]. split; [reflexivity | apply quiet_one; exact I]. }
  destruct b; simpl;
    try (eexists [_; _]; split; [rewrite <- app_assoc; reflexivity|];
         repeat constructor).
  eexists [_; _; _]. split; [rewrite <- !app_assoc; reflexivity|].
    split; [reflexivity|].
    eexists [_], (Confirm "Add another sync group?").
    split; [|reflexivity]. apply quiet_one. exact I.
Qed.

Lemma syncGroupsLoop_enough (w : world) (fuel : nat) :
  forall addMore syncGroups s,
    (addMore = true -> length (pending s) < fuel) ->
    exists r s' d,
      syncGroupsLoop fuel w addMore syncGroups s = Some (r, s') /\
      trace s' = trace s ++ d /\
      outcome w (fun _ d => quiet w d /\ True) r d.
Proof.
  induction fuel as [|fuel IH]; intros addMore syncGroups s Hfuel;
    destruct addMore; simpl;
    try solve [exists (Ret syncGroups), s, []; rewrite app_nil_r; simpl;
               auto using quiet_nil].
  - specialize (Hfuel eq_refl). lia.
  - destruct (syncGroupsBody_sound w syncGroups s) as (d1 & Ht1 & Ho1).
    destruct (syncGroupsBody w syncGroups s) as [[[again groups'] | e | h] s1];
      simpl in *.
    + destruct Ho1 as [Hq1 Hlt].
      destruct (IH again groups' s1) as (r & s' & d2 & Heq & Ht2 & Ho2).
      { intros _. specialize (Hfuel eq_refl). lia. }
      exists r, s', (d1 ++ d2). split; [exact Heq|].
      split; [rewrite Ht2, Ht1; symmetry; apply app_assoc|].
      destruct r as [gs | e | [code | |]]; simpl in *.
      * split; [apply quiet_app; tauto | exact I].
      * apply failure_prepend; assumption.
      * destruct Ho2 as (Hc & d0 & p & Hq0 & ->). split; [exact Hc|].
        exists (d1 ++ d0), p. split; [apply quiet_app; assumption | apply app_assoc].
      * apply quiet_app; assumption.
      * apply quiet_app; assumption.
    + contradiction.
    + exists (Halt h), s1, d1. auto.
Qed.

Lemma syncGroupsFlow_sound (w : world) :
  sound w (syncGroupsFlow w) (fun _ d => quiet w d /\ True).
Proof.
  intros s. unfold syncGroupsFlow.
  destruct (syncGroupsLoop_enough w (S (length (pending s))) true [] s)
    as (r & s' & d & -> & Ht & Ho); [intros _; lia|].
  exists d. auto.
Qed.

(** ** The assembler *)

Lemma assemble_sound (w : world) :
  sound w (assemble w config) (fun cfg d => quiet w d /\ assembled cfg d).
Proof.
  unfold assemble.
  apply sound_ask with (Q := fun v _ => In v ["major"; "minor"; "patch"]);
    [apply select_sound|].
  intros release d1 Hq1 Hrelease.
  apply sound_ask
    with (Q := fun vs d => d = [Asked targets_question (PickedMany vs)] /\
                           forall t, In t vs -> In t options);
    [apply multiselect_sound|].
  intros askTargets d2 Hq2 [Hd2 Hoptions].
  eapply sound_bind; [apply collectPaths_sound|].
  intros tp d3 (Hq3 & Hkeys & Hpaths). split; [exact Hq3|].
  specialize (Hpaths (Forall_nil _)).
  apply sound_ask with (Q := fun v _ => In v ["all"; "none"; "groups"]);
    [apply select_sound|].
  intros syncMode d4 Hq4 Hmode.
  assert (Hshape : forall sync d5,
             quiet w d5 ->
             (sync = VBool true \/ sync = VBool false \/
              exists groups, sync = VArr (map array_of groups)) ->
             quiet w (d1 ++ d2 ++ d3 ++ d4 ++ d5) /\
             assembled
               [ ("$schema", VStr CONFIG_SCHEMA_URL);
                 ("defaultReleaseType", VStr release);
                 ("targets", VObj (fromEntries (map (fun t => (t, VBool true)) askTargets)));
                 ("targetsPath", VObj tp);
                 ("sync", sync) ]
               (d1 ++ d2 ++ d3 ++ d4 ++ d5)).
  { intros sync d5 Hq5 Hsync. split; [auto using quiet_app|].
    exists release, askTargets, tp, sync.
    split; [subst d2; rewrite !in_app_iff; simpl; auto|].
    split; [reflexivity|]. auto 6. }
  destruct Hmode as [<- | [<- | [<- | []]]]; cbn.
  - apply sound_ret. apply Hshape; [apply quiet_nil | auto].
  - apply sound_ret. apply Hshape; [apply quiet_nil | auto].
  - eapply sound_bind; [apply sound_emit; exact I|].
    intros _ d5 [Hq5 _]. split; [exact Hq5|].
    eapply sound_bind; [apply syncGroupsFlow_sound|].
    intros syncGroups d6 [Hq6 _]. split; [exact Hq6|].
    apply sound_ret. rewrite app_nil_r.
    apply Hshape; [apply quiet_app; assumption | eauto].
Qed.

(** ** The probes and the install step *)

Lemma spinner_quiet (w : world) (d : list event) : Forall spinner_event d -> quiet w d.
Proof.
  intros H. unfold quiet. eapply Forall_impl; [|exact H].
  intros e He. destruct e; try destruct He; exact I.
Qed.

Lemma hasConfig_returns (w : world) (s : state) :
  exists b d,
    hasConfig w s = (Ret b, {| pending := pending s; trace := trace s ++ d |}) /\
    Forall spinner_event d /\ (b = true <-> has_config w).
Proof.
  unfold hasConfig, has_config, try_catch, readManifest, read, bind, s_start, s_stop,
    emit, ret, throw.
  destruct (glob_matches w) as [|f fs] eqn:Hg; simpl.
  - destruct (manifest w) as [e | pkg] eqn:Hm; simpl.
    + exists false; eexists [_; _; _; _]. split; [rewrite <- !app_assoc; reflexivity|].
      split; [repeat constructor|]. split; [discriminate|].
      intros [H | (pkg & v & H & _)]; [contradiction | discriminate].
    + destruct (get_prop pkg "release-hub") as [field|] eqn:Hf; simpl.
      * destruct (truthy field) eqn:Ht; simpl.
        -- exists true; eexists [_; _; _; _].
           split; [rewrite <- !app_assoc; reflexivity|].
           split; [repeat constructor|]. split; [|reflexivity].
           intros _. right. exists pkg, field. auto.
        -- exists false; eexists [_; _; _; _].
           split; [rewrite <- !app_assoc; reflexivity|].
           split; [repeat constructor|]. split; [discriminate|].
           intros [H | (pkg' & v & H & Hv & Hv')]; [contradiction|].
           injection H as <-. congruence.
      * exists false; eexists [_; _; _; _].
        split; [rewrite <- !app_assoc; reflexivity|].
        split; [repeat constructor|]. split; [discriminate|].
        intros [H | (pkg' & v & H & Hv & _)]; [contradiction|].
        injection H as <-. congruence.
  - exists true; eexists [_; _]. split; [rewrite <- !app_assoc; reflexivity|].
    split; [repeat constructor|]. split; [|reflexivity].
    intros _. left. discriminate.
Qed.

Lemma hasConfig_sound (w : world) :
  sound w (hasConfig w) (fun b d => quiet w d /\ (b = true <-> has_config w)).
Proof.
  intros s. destruct (hasConfig_returns w s) as (b & d & -> & Hq & Hb).
  exists d. simpl. split; [reflexivity|]. split; [|exact Hb].
  apply (spinner_quiet w), Hq.
Qed.

Lemma hasLib_sound (w : world) :
  sound w (hasLib w) (fun b d => quiet w d /\ True).
Proof.
  intros s. destruct (hasLib_returns w s) as (d & -> & t1 & t2 & ->).
  eexists. split; [reflexivity|]. simpl. split; [repeat constructor | exact I].
Qed.

Lemma spawnAsync_sound (w : world) (cmd : string) (args : list string) :
  sound w (spawnAsync w cmd args) (fun _ d => quiet w d /\ True).
Proof.
  intros s. exists [Spawned cmd args]. unfold spawnAsync, bind, emit, ret, throw.
  assert (Hfail : forall e, spawn_rejection w cmd args = Some e ->
                            failure w e [Spawned cmd args]).
  { intros e He. apply (InstallFailed w [] cmd args e); [apply quiet_nil | exact He]. }
  unfold spawn_rejection in Hfail. simpl.
  destruct (spawn w cmd args) as [code | | e] eqn:Hs; simpl.
  - destruct (code =? 0)%Z eqn:Hc; simpl; split; try reflexivity.
    + split; [|exact I]. apply quiet_one. simpl. unfold spawn_rejection.
      rewrite Hs, Hc. reflexivity.
    + apply Hfail. reflexivity.
  - split; [reflexivity | apply Hfail; reflexivity].
  - split; [reflexivity | apply Hfail; reflexivity].
Qed.

Lemma installStep_sound (w : world) :
  sound w (installStep w) (fun _ d => quiet w d /\ True).
Proof.
  unfold installStep.
  eapply sound_ask; [apply confirm_sound|].
  intros shouldInstall d1 Hq1 _. destruct shouldInstall; cbn [negb].
  - destruct (lookup (detectPackageManager w) PACKAGE_INSTALL) as [[cmd cmdArgs]|] eqn:Hl;
      unfold destructure.
    + apply sound_bind_ret.
      eapply sound_bind; [apply sound_emit; exact I|].
      intros _ d2 [Hq2 _]. split; [exact Hq2|].
      eapply sound_bind; [apply spawnAsync_sound|].
      intros _ d3 [Hq3 _]. split; [exact Hq3|].
      eapply sound_weaken; [apply sound_emit; exact I|].
      intros _ d4 [Hq4 _]. split; [|exact I].
      auto using quiet_app.
    + apply sound_bind_throw.
      apply UnknownManager; [apply quiet_nil | exact Hl].
  - eapply sound_weaken; [apply sound_emit; exact I|].
    intros _ d2 [Hq2 _]. split; [apply quiet_app; assumption | exact I].
Qed.

(** ** The whole run *)

Lemma assembled_prepend (cfg : list (string * value)) (d1 d2 : list event) :
  assembled cfg d2 -> assembled cfg (d1 ++ d2).
Proof.
  intros H. rewrite <- (app_nil_r d2). apply assembled_app. exact H.
Qed.

Lemma completed_prepend (w : world) (d1 d2 : list event) :
  quiet w d1 ->
  (exists d0 cfg, d2 = d0 ++ completion cfg /\ quiet w d0 /\ assembled cfg d0 /\
                  write_failure w = None) ->
  exists d0 cfg, d1 ++ d2 = d0 ++ completion cfg /\ quiet w d0 /\ assembled cfg d0 /\
                 write_failure w = None.
Proof.
  intros Hq (d0 & cfg & -> & Hq0 & Ha & Hw). exists (d1 ++ d0), cfg.
  split; [apply app_assoc|]. split; [apply quiet_app; assumption|].
  split; [apply assembled_prepend, Ha | exact Hw].
Qed.

Ltac configure_and_write w :=
  apply sound_seq with (Q := fun _ => True);
  [ apply sound_emit; exact I
  | intros ? ? ?; apply completed_prepend
  | intros _ _ ];
  eapply sound_bind; [apply assemble_sound|];
  let cfg := fresh "cfg" in
  let d1 := fresh "d" in
  let Hq := fresh "Hq" in
  let Ha := fresh "Ha" in
  let s := fresh "s" in
  let Hw := fresh "Hw" in
  intros cfg d1 [Hq Ha]; split; [exact Hq|];
  intros s;
  unfold bind, log_success, s_start, writeFile, s_stop, outro, emit, throw;
  destruct (write_failure w) as [?e|] eqn:Hw; simpl;
  [ eexists [_; _]; split; [rewrite <- !app_assoc; reflexivity|];
    apply (WriteFailed w []); [apply quiet_nil | exact Hw]
  | exists (completion cfg); split; [rewrite <- !app_assoc; reflexivity|];
    exists d1, cfg; auto ].

Lemma body_sound (w : world) :
  sound w (body w)
    (fun _ d => exists d0 cfg,
                  d = d0 ++ completion cfg /\ quiet w d0 /\ assembled cfg d0 /\
                  write_failure w = None).
Proof.
  unfold body, intro.
  apply sound_seq with (Q := fun _ => True);
    [apply sound_emit; exact I | intros ? ? ?; apply completed_prepend | intros _ _].
  apply sound_seq with (Q := fun b => b = true <-> has_config w);
    [apply hasConfig_sound | intros ? ? ?; apply completed_prepend | intros existing Hex].
  destruct existing.
  { apply sound_bind_throw. apply ConfigExists; [apply quiet_nil | tauto]. }
  apply sound_bind_ret.
  apply sound_seq with (Q := fun _ => True);
    [apply hasLib_sound | intros ? ? ?; apply completed_prepend | intros isInstalled _].
  destruct isInstalled; cbn [negb].
  - apply sound_bind_ret. configure_and_write w.
  - apply sound_seq with (Q := fun _ => True);
      [apply installStep_sound | intros ? ? ?; apply completed_prepend | intros _ _].
    configure_and_write w.
Qed.

(** Every run ends in one of the four ways of [ending]. *)
Lemma run_ending (w : world) (answers : list answer) :
  ending w (fst (run w answers)) (trace (snd (run w answers))).
Proof.
  unfold run, main, try_catch.
  destruct (body_sound w {| pending := answers; trace := [] |}) as (d & Ht & Ho).
  destruct (body w _) as [[[] | e | h] s']; simpl in *.
  - destruct Ho as (d0 & cfg & -> & Hq & Ha & Hw). rewrite Ht.
    apply Succeeded; assumption.
  - rewrite Ht. apply Reported. exact Ho.
  - rewrite Ht. destruct h as [code | |].
    + destruct Ho as (-> & d0 & p & Hq & ->). apply CancelledAt. exact Hq.
    + apply Blocked; auto.
    + apply Blocked; auto.
Qed.

(** ** Cancellation *)

Lemma completion_not_cancelled (cfg : list (string * value)) (p : prompt) :
  ~ In (Asked p Cancel) (completion cfg).
Proof.
  unfold completion. simpl. intros [H | [H | [H | [H | [H | []]]]]]; discriminate H.
Qed.

(** C6.  If the user cancels at a prompt, whichever it is, the process
    exits at once with status 1: the cancellation message is the last
    thing that happens, no prompt was cancelled before, and the
    configuration file is not written, neither before nor after. *)
Theorem cancel_stops_the_run (w : world) (answers : list answer) (p : prompt) :
  In (Asked p Cancel) (trace (snd (run w answers))) ->
  fst (run w answers) = Halt (Exited 1) /\
  exit_status (run w answers) = Some 1%Z /\
  written (trace (snd (run w answers))) = [] /\
  exists d,
    trace (snd (run w answers)) = d ++ [Asked p Cancel; LogError cancelled] /\
    (forall q, ~ In (Asked q Cancel) d) /\
    errors d = [].
Proof.
  intros Hin. pose proof (run_ending w answers) as H.
  destruct (run w answers) as [r s]. simpl in *.
  remember (trace s) as tr eqn:Htr. clear Htr.
  destruct H as [d cfg Hq Ha Hw | d e Hf | d p' Hq | d h Hh Hq].
  - exfalso. apply in_app_or in Hin. destruct Hin as [Hin | Hin].
    + exact (quiet_not_cancelled w d p Hq Hin).
    + exact (completion_not_cancelled cfg p Hin).
  - exfalso. apply in_app_or in Hin. destruct Hin as [Hin | [Hin | []]].
    + exact (proj2 (proj2 (failure_unwritten w e d Hf)) p Hin).
    + discriminate Hin.
  - assert (p' = p) as ->.
    { apply in_app_or in Hin. destruct Hin as [Hin | [Hin | [Hin | []]]].
      - exfalso. exact (quiet_not_cancelled w d p Hq Hin).
      - injection Hin as ->. reflexivity.
      - discriminate Hin. }
    split; [reflexivity|]. split; [reflexivity|].
    split; [rewrite written_app, (quiet_written w d Hq); reflexivity|].
    exists d. split; [reflexivity|].
    split; [intros q; apply (quiet_not_cancelled w d q Hq) | apply (quiet_errors w d Hq)].
  - exfalso. exact (quiet_not_cancelled w d p Hq Hin).
Qed.

Lemma cancel_stops_the_run_witness :
  In (Asked (Text "Path for deno:") Cancel)
     (trace (snd (run ready_project
                    [Picked "minor"; PickedMany ["node"; "deno"];
                     Typed "./package.json"; Cancel]))) /\
  fst (run ready_project
         [Picked "minor"; PickedMany ["node"; "deno"];
          Typed "./package.json"; Cancel]) = Halt (Exited 1).
Proof.
  assert (H : In (Asked (Text "Path for deno:") Cancel)
                (trace (snd (run ready_project
                               [Picked "minor"; PickedMany ["node"; "deno"];
                                Typed "./package.json"; Cancel])))).
  { vm_compute. auto 20. }
  split; [exact H|].
  exact (proj1 (cancel_stops_the_run ready_project _ _ H)).
Defined.

(** Each of the seven prompts of the module, cancelled in turn: the
    install question, the release type, the targets, a path, the sync
    mode, a sync group, and the question after a group. *)
Example cancel_at_each_prompt :
  Forall (fun run_ => fst run_ = Halt (Exited 1) /\ written (trace (snd run_)) = [])
    [ run failing_install_project [Cancel];
      run ready_project [Cancel];
      run ready_project [Picked "patch"; Cancel];
      run ready_project [Picked "patch"; PickedMany ["node"]; Cancel];
      run ready_project [Picked "patch"; PickedMany ["node"]; Typed "./package.json"; Cancel];
      run ready_project [Picked "patch"; PickedMany ["node"]; Typed "./package.json";
                         Picked "groups"; Cancel];
      run ready_project [Picked "patch"; PickedMany ["node"]; Typed "./package.json";
                         Picked "groups"; PickedMany ["node"; "deno"]; Cancel] ].
Proof. repeat constructor. Qed.

(** ** The written configuration *)

Lemma lookup_obj_set (o : list (string * value)) (k t : string) (v : value) :
  lookup t (obj_set o k v) = if String.eqb t k then Some v else lookup t o.
Proof.
  induction o as [|[k' v'] rest IH]; simpl; [reflexivity|].
  destruct (String.eqb_spec k k') as [<- | Hk]; simpl.
  - destruct (String.eqb t k); reflexivity.
  - rewrite IH. destruct (String.eqb_spec t k') as [-> | _]; [|reflexivity].
    destruct (String.eqb_spec k' k) as [<- | _]; [contradiction | reflexivity].
Qed.

Lemma lookup_fold_true (l : list string) :
  forall o t,
    In t l \/ lookup t o = Some (VBool true) ->
    lookup t (fold_left (fun o e => obj_set o (fst e) (snd e))
                        (map (fun t => (t, VBool true)) l) o) = Some (VBool true).
Proof.
  induction l as [|x rest IH]; intros o t H; simpl.
  - destruct H as [[] | H]. exact H.
  - apply IH. rewrite lookup_obj_set.
    destruct (String.eqb_spec t x) as [-> | Hne]; [right; reflexivity|].
    destruct H as [[Hx | Hin] | Ho]; [congruence | left; exact Hin | right; exact Ho].
Qed.

Lemma lookup_fromEntries (l : list string) (t : string) :
  In t l -> lookup t (fromEntries (map (fun t => (t, VBool true)) l)) = Some (VBool true).
Proof. intros H. apply lookup_fold_true. left. exact H. Qed.

Lemma lookup_key {A : Type} (o : list (string * A)) (t : string) :
  In t (keys o) -> exists v, lookup t o = Some v /\ In (t, v) o.
Proof.
  induction o as [|[k v] rest IH]; simpl; [intros []|]. intros H.
  destruct (String.eqb_spec t k) as [-> | Hne]; [exists v; auto|].
  destruct H as [H | H]; [congruence|].
  destruct (IH H) as (v' & Hl & Hi). exists v'. auto.
Qed.

(** C8.  Whenever a run writes the configuration file, the file holds
    the serialized object assembled from the answers.  Its [targets] is
    the object built from the targets the user selected at the target
    prompt, each set to [true]; the keys of [targetsPath] are the keys
    of [targets], in the same order: the selected targets, each once, in
    selection order (exactly the selected list when it has no repeats);
    and every selected target is mapped by [targets] to [true] and by
    [targetsPath] to a string, a path the path prompt accepted. *)
Theorem targetsPath_keys (w : world) (answers : list answer) (path content : string) :
  In (path, content) (written (trace (snd (run w answers)))) ->
  exists askTargets release tg tp sync,
    In (Asked targets_question (PickedMany askTargets)) (trace (snd (run w answers))) /\
    path = CONFIG_FILE /\
    content =
      (stringify (VObj [ ("$schema", VStr CONFIG_SCHEMA_URL);
                         ("defaultReleaseType", VStr release);
                         ("targets", VObj tg);
                         ("targetsPath", VObj tp);
                         ("sync", sync) ]) ++ newline)%string /\
    tg = fromEntries (map (fun t => (t, VBool true)) askTargets) /\
    keys tp = keys tg /\
    (forall t, In t (keys tp) <-> In t askTargets) /\
    (NoDup askTargets -> keys tp = askTargets) /\
    (forall t, In t askTargets ->
               lookup t tg = Some (VBool true) /\
               exists r, lookup t tp = Some (VStr r) /\ validate r = None) /\
    Forall path_entry tp.
Proof.
  intros Hin. pose proof (run_ending w answers) as H.
  destruct (run w answers) as [r s]. simpl in *.
  remember (trace s) as tr eqn:Htr. clear Htr.
  destruct H as [d cfg Hq Ha Hw | d e Hf | d p' Hq | d h Hh Hq].
  - rewrite written_app, (quiet_written w d Hq) in Hin. simpl in Hin.
    destruct Hin as [Hin | []]. injection Hin as <- <-.
    destruct Ha as (release & askTargets & tp & sync & Hasked & -> & _ & _ & Hk & Hp & _).
    exists askTargets, release, (fromEntries (map (fun t => (t, VBool true)) askTargets)),
      tp, sync.
    split; [apply in_or_app; left; exact Hasked|].
    split; [reflexivity|]. split; [reflexivity|]. split; [reflexivity|].
    rewrite keys_fromEntries, Hk.
    split; [reflexivity|]. split; [intros t; apply distinct_In|].
    split; [apply distinct_NoDup|]. split; [|exact Hp].
    intros t Ht. split; [apply lookup_fromEntries, Ht|].
    assert (Hkey : In t (keys tp)) by (rewrite Hk; apply distinct_In, Ht).
    destruct (lookup_key tp t Hkey) as (v & Hl & Hi).
    rewrite Forall_forall in Hp. destruct (Hp _ Hi) as (r & Hr & Hv).
    simpl in Hr. subst v. exists r. auto.
  - exfalso. rewrite written_app, (proj1 (failure_unwritten w e d Hf)) in Hin.
    destruct Hin.
  - exfalso. rewrite written_app, (quiet_written w d Hq) in Hin. destruct Hin.
  - exfalso. rewrite (quiet_written w d Hq) in Hin. destruct Hin.
Qed.

Lemma targetsPath_keys_witness :
  In (CONFIG_FILE, minor_node_deno_all_text)
     (written (trace (snd (run ready_project minor_node_deno_all)))) /\
  exists askTargets release tg tp sync,
    In (Asked targets_question (PickedMany askTargets))
       (trace (snd (run ready_project minor_node_deno_all))) /\
    CONFIG_FILE = CONFIG_FILE /\
    minor_node_deno_all_text =
      (stringify (VObj [ ("$schema", VStr CONFIG_SCHEMA_URL);
                         ("defaultReleaseType", VStr release);
                         ("targets", VObj tg);
                         ("targetsPath", VObj tp);
                         ("sync", sync) ]) ++ newline)%string /\
    tg = fromEntries (map (fun t => (t, VBool true)) askTargets) /\
    keys tp = keys tg /\
    (forall t, In t (keys tp) <-> In t askTargets) /\
    (NoDup askTargets -> keys tp = askTargets) /\
    (forall t, In t askTargets ->
               lookup t tg = Some (VBool true) /\
               exists r, lookup t tp = Some (VStr r) /\ validate r = None) /\
    Forall path_entry tp.
Proof.
  assert (H : In (CONFIG_FILE, minor_node_deno_all_text)
                 (written (trace (snd (run ready_project minor_node_deno_all))))).
  { vm_compute. left. reflexivity. }
  split; [exact H|].
  exact (targetsPath_keys ready_project _ _ _ H).
Defined.

(** The same on a selection of three targets picked out of the order
    of the menu: both mappings list them as picked. *)
Example targetsPath_in_selection_order :
  written (trace (snd (run ready_project
                         [Picked "major"; PickedMany ["webext"; "node"; "jsr"];
                          Typed "./manifest.json"; Typed "../package.json";
                          Typed "./jsr.json"; Picked "all"])))
  = [ (CONFIG_FILE,
       (stringify
          (VObj [ ("$schema", VStr CONFIG_SCHEMA_URL);
                  ("defaultReleaseType", VStr "major");
                  ("targets", VObj [ ("webext", VBool true);
                                     ("node", VBool true);
                                     ("jsr", VBool true) ]);
                  ("targetsPath", VObj [ ("webext", VStr "./manifest.json");
                                         ("node", VStr "../package.json");
                                         ("jsr", VStr "./jsr.json") ]);
                  ("sync", VBool true) ]) ++ newline)%string) ].
Proof. vm_compute. reflexivity. Qed.

(** ** Stepping through a run *)

Lemma bind_ret_eq {A B : Type} (m : M A) (k : A -> M B) (s s' : state) (a : A) :
  m s = (Ret a, s') -> bind m k s = k a s'.
Proof. intros H. unfold bind. rewrite H. reflexivity. Qed.

Lemma bind_throw_eq {A B : Type} (m : M A) (k : A -> M B) (s s' : state) (e : exn) :
  m s = (Throw e, s') -> bind m k s = (Throw e, s').
Proof. intros H. unfold bind. rewrite H. reflexivity. Qed.

Lemma bind_skip {B : Type} (e : exn) (k : unit -> M B) (s : state) :
  bind (if false then throw e else ret tt) k s = k tt s.
Proof. reflexivity. Qed.

Lemma completion_events (cfg : list (string * value)) :
  written (completion cfg) = [(CONFIG_FILE, (stringify (VObj cfg) ++ newline)%string)] /\
  errors (completion cfg) = [] /\
  (forall cmd args, ~ In (Spawned cmd args) (completion cfg)) /\
  In (LogSuccess "Configuration complete") (completion cfg).
Proof.
  repeat split; [|simpl; auto].
  intros cmd args [H | [H | [H | [H | [H | []]]]]]; discriminate H.
Qed.


(** ** A manager outside the install table *)

Lemma lookup_unknown (pm : string) :
  ~ In pm managers -> lookup pm PACKAGE_INSTALL = None.
Proof.
  intros H. unfold PACKAGE_INSTALL, lookup.
  destruct (String.eqb_spec pm "npm") as [-> | _]; [exfalso; apply H; cbv; auto|].
  destruct (String.eqb_spec pm "yarn") as [-> | _]; [exfalso; apply H; cbv; auto|].
  destruct (String.eqb_spec pm "pnpm") as [-> | _]; [exfalso; apply H; cbv; auto|].
  destruct (String.eqb_spec pm "bun") as [-> | _]; [exfalso; apply H; cbv; auto 6|].
  reflexivity.
Qed.

Lemma installStep_unknown (w : world) (s : state) (rest : list answer) :
  lookup (detectPackageManager w) PACKAGE_INSTALL = None ->
  pending s = Confirmed true :: rest ->
  installStep w s =
    (Throw (type_error w),
     {| pending := rest;
        trace := trace s ++
                 [Asked (Confirm ("Would you like to install " ++ NAME ++ " using "
                                  ++ detectPackageManager w ++ "?")%string)
                        (Confirmed true)] |}).
Proof.
  intros Hl Hp. unfold installStep. cbv zeta. rewrite Hl.
  unfold confirm, exitOnCancel, destructure, bind, next, ret, throw. rewrite Hp.
  reflexivity.
Qed.

(** C10.  In a project with no configuration, without the library, with
    no lockfile, and whose manifest declares a manager outside npm,
    yarn, pnpm, bun, a user who confirms the installation gets this:
    the lookup in [PACKAGE_INSTALL] finds nothing, destructuring raises
    in the install step, the top-level handler logs the engine's message
    right after the confirmation, and the run is over; no subprocess was
    started and no configuration file was written. *)
Theorem unknown_manager_aborts (w : world) (s : string) (rest : list answer) :
  ~ has_config w ->
  ~ depends_on_library w ->
  no_lockfile w ->
  declares_manager w s ->
  (forall r, before_at s r -> ~ In r managers) ->
  let question :=
    Confirm ("Would you like to install " ++ NAME ++ " using "
             ++ detectPackageManager w ++ "?")%string in
  let tr := trace (snd (run w (Confirmed true :: rest))) in
  lookup (detectPackageManager w) PACKAGE_INSTALL = None /\
  (forall s0, pending s0 = Confirmed true :: rest ->
              fst (installStep w s0) = Throw (type_error w)) /\
  fst (run w (Confirmed true :: rest)) = Ret tt /\
  (exists d,
     tr = d ++ [Asked question (Confirmed true); LogError (shown (type_error w))] /\
     Forall spinner_event (tl d)) /\
  written tr = [] /\
  (forall cmd args, ~ In (Spawned cmd args) tr).
Proof.
  intros Hnc Hnl Hno Hdecl Hout. cbv zeta.
  assert (Hl : lookup (detectPackageManager w) PACKAGE_INSTALL = None).
  { apply lookup_unknown, (Hout _).
    rewrite (detect_without_lockfile w Hno), (declared_field w s Hdecl).
    apply split_before_at. }
  split; [exact Hl|].
  split; [intros s0 Hp; rewrite (installStep_unknown w s0 rest Hl Hp); reflexivity|].
  unfold run, main, try_catch, body.
  rewrite (bind_ret_eq _ _ _
             {| pending := Confirmed true :: rest; trace := [Intro "create-release-hub"] |} tt)
    by reflexivity.
  destruct (hasConfig_returns w
              {| pending := Confirmed true :: rest; trace := [Intro "create-release-hub"] |})
    as (b & d1 & Heq1 & Hd1 & Hb).
  assert (b = false) as ->.
  { destruct b; [exfalso; apply Hnc; tauto | reflexivity]. }
  rewrite (bind_ret_eq _ _ _ _ _ Heq1).
  rewrite (bind_skip (Error "A Release Hub config already exists in this project")).
  match goal with
  | |- context [bind (hasLib w) _ ?st] =>
      destruct (hasLib_returns w st) as (d2 & Heq2 & t1 & t2 & ->)
  end.
  assert (Hlib : match manifest w with
                 | Unreadable _ => false
                 | Parsed pkg => installed pkg
                 end = false).
  { destruct (manifest w) as [e | pkg] eqn:Hm; [reflexivity|].
    destruct (installed pkg) eqn:Hi; [|reflexivity].
    exfalso. apply Hnl. apply installed_iff in Hi.
    destruct Hi as (props & section & deps & v & -> & H).
    exists props, section, deps, v. auto. }
  rewrite Hlib in Heq2.
  rewrite (bind_ret_eq _ _ _ _ _ Heq2). cbn [negb].
  erewrite bind_throw_eq by (apply installStep_unknown; [exact Hl | reflexivity]).
  unfold report, log_error, emit. cbn [fst snd trace pending].
  split; [reflexivity|].
  assert (Hshape :
            (([Intro "create-release-hub"] ++ d1) ++ [SpinnerStart t1; SpinnerStop t2]) ++
            [Asked (Confirm ("Would you like to install " ++ NAME ++ " using "
                             ++ detectPackageManager w ++ "?")%string) (Confirmed true)]
            = (Intro "create-release-hub" :: d1 ++ [SpinnerStart t1; SpinnerStop t2]) ++
              [Asked (Confirm ("Would you like to install " ++ NAME ++ " using "
                               ++ detectPackageManager w ++ "?")%string) (Confirmed true)])
    by reflexivity.
  rewrite Hshape. clear Hshape. rewrite <- app_assoc. cbn [app].
  assert (Hsp : Forall spinner_event (d1 ++ [SpinnerStart t1; SpinnerStop t2])).
  { apply Forall_app. split; [exact Hd1 | repeat constructor]. }
  assert (Hq : quiet w (Intro "create-release-hub" :: d1 ++ [SpinnerStart t1; SpinnerStop t2])).
  { constructor; [exact I | apply spinner_quiet, Hsp]. }
  split; [|split].
  - exists (Intro "create-release-hub" :: d1 ++ [SpinnerStart t1; SpinnerStop t2]).
    split; [reflexivity | exact Hsp].
  - change (Intro "create-release-hub"
              :: (d1 ++ [SpinnerStart t1; SpinnerStop t2]) ++ _)
      with ((Intro "create-release-hub" :: d1 ++ [SpinnerStart t1; SpinnerStop t2]) ++
            [Asked (Confirm ("Would you like to install " ++ NAME ++ " using "
                             ++ detectPackageManager w ++ "?")%string) (Confirmed true);
             LogError (shown (type_error w))]).
    rewrite written_app, (quiet_written w _ Hq). reflexivity.
  - intros cmd args [Hin | Hin]; [discriminate Hin|].
    apply in_app_or in Hin. destruct Hin as [Hin | [Hin | [Hin | []]]];
      try discriminate Hin.
    rewrite Forall_forall in Hsp. exact (Hsp _ Hin).
Qed.

Lemma before_at_unique (s : string) :
  forall r, before_at s r -> r = fst (split "@" s).
Proof.
  induction s as [|c s' IH]; intros r [Hno Hs].
  - destruct Hs as [<- | [rest Hs]]; [reflexivity|].
    destruct r; discriminate Hs.
  - simpl. destruct (split "@" s') as [hd tl] eqn:E. simpl in IH.
    destruct (Ascii.eqb c "@") eqn:Ec; simpl.
    + apply Ascii.eqb_eq in Ec. subst c.
      destruct r as [|c' r']; [reflexivity|]. exfalso.
      apply (Hno c'); [left; reflexivity|].
      destruct Hs as [Hs | [rest Hs]]; injection Hs; auto.
    + apply Ascii.eqb_neq in Ec.
      destruct r as [|c' r'].
      * exfalso. destruct Hs as [Hs | [rest Hs]]; [discriminate Hs|].
        injection Hs as Hc _. exact (Ec Hc).
      * assert (c' = c /\ before_at s' r') as [-> Hb].
        { split.
          - destruct Hs as [Hs | [rest Hs]]; injection Hs; auto.
          - split; [intros x Hx; apply Hno; right; exact Hx|].
            destruct Hs as [Hs | [rest Hs]]; simpl in Hs; injection Hs as _ Hs;
              [left | right; exists rest]; exact Hs. }
        rewrite (IH r' Hb). reflexivity.
Qed.

Lemma unknown_manager_aborts_witness :
  ~ has_config unknown_manager_project /\
  ~ depends_on_library unknown_manager_project /\
  declares_manager unknown_manager_project "foo@1.0.0" /\
  lookup (detectPackageManager unknown_manager_project) PACKAGE_INSTALL = None /\
  fst (run unknown_manager_project [Confirmed true]) = Ret tt /\
  written (trace (snd (run unknown_manager_project [Confirmed true]))) = [].
Proof.
  assert (H1 : ~ has_config unknown_manager_project).
  { intros [H | (pkg & v & Hm & Hg & Ht)]; [apply H; reflexivity|].
    injection Hm as <-. vm_compute in Hg. injection Hg as <-. discriminate Ht. }
  assert (H2 : ~ depends_on_library unknown_manager_project).
  { intros (props & section & deps & v & Hm & [-> | ->] & Hl & _);
      injection Hm as <-; discriminate Hl. }
  assert (H3 : no_lockfile unknown_manager_project) by (intros f _; reflexivity).
  assert (H4 : declares_manager unknown_manager_project "foo@1.0.0").
  { eexists. split; [reflexivity | split; [reflexivity | discriminate]]. }
  assert (H5 : forall r, before_at "foo@1.0.0" r -> ~ In r managers).
  { intros r Hr. rewrite (before_at_unique _ r Hr). cbv.
    intros [H | [H | [H | [H | []]]]]; discriminate H. }
  pose proof (unknown_manager_aborts unknown_manager_project "foo@1.0.0" []
                H1 H2 H3 H4 H5) as H.
  cbv zeta in H. destruct H as (Hl & _ & Hr & _ & Hw & _).
  repeat split; assumption.
Defined.

(** ** The worked example and the sync groups *)

(** C5.  Answering minor, then node and deno, then ./package.json and
    ./deno.json, then all, the assembler returns the object with the five
    keys [$schema], [defaultReleaseType], [targets], [targetsPath],
    [sync] in that order and the values of the example, in any project
    and after any history; serialized, it is the text of the example,
    and that text is what a run with these answers writes to
    [./.release-hub.json]. *)
Theorem example_config (w : world) (tr : list event) :
  fst (assemble w config {| pending := minor_node_deno_all; trace := tr |}) =
    Ret [ ("$schema", VStr CONFIG_SCHEMA_URL);
          ("defaultReleaseType", VStr "minor");
          ("targets", VObj [("node", VBool true); ("deno", VBool true)]);
          ("targetsPath", VObj [("node", VStr "./package.json");
                                ("deno", VStr "./deno.json")]);
          ("sync", VBool true) ] /\
  (stringify
     (VObj [ ("$schema", VStr CONFIG_SCHEMA_URL);
             ("defaultReleaseType", VStr "minor");
             ("targets", VObj [("node", VBool true); ("deno", VBool true)]);
             ("targetsPath", VObj [("node", VStr "./package.json");
                                   ("deno", VStr "./deno.json")]);
             ("sync", VBool true) ]) ++ newline)%string
  = minor_node_deno_all_text /\
  fst (run ready_project minor_node_deno_all) = Ret tt /\
  written (trace (snd (run ready_project minor_node_deno_all)))
  = [(CONFIG_FILE, minor_node_deno_all_text)].
Proof.
  split; [reflexivity|]. split; [vm_compute; reflexivity|].
  split; vm_compute; reflexivity.
Qed.

(** Whatever its size, a selection submitted in the sync-groups loop is
    appended: the test [group.size < 2] reads a property arrays do not
    have, and [undefined < 2] is false. *)
Lemma size_test_never_rejects (group : list string) :
  get_prop (array_of group) "size" = Some VUndef /\
  lt VUndef (VNum 2) = false /\
  truthy (array_of group) = true.
Proof. repeat split. Qed.

Lemma syncGroupsBody_appends (w : world) (syncGroups : list (list string))
  (s : state) (group : list string) (again : bool) (rest : list answer) :
  pending s = PickedMany group :: Confirmed again :: rest ->
  (forall t, In t group -> In t options) ->
  syncGroupsBody w syncGroups s =
    (Ret (again, syncGroups ++ [group]),
     {| pending := rest;
        trace := trace s ++
                 [ Asked (Multiselect "Select targets to sync together:") (PickedMany group);
                   Asked (Confirm "Add another sync group?") (Confirmed again) ] |}).
Proof.
  intros Hp Hopt.
  assert (Hall : forallb (fun v => member v options) group = true).
  { apply forallb_forall. intros t Ht. apply member_In, Hopt, Ht. }
  unfold syncGroupsBody, multiselect, confirm, exitOnCancel, read, bind, next, ret.
  rewrite Hp. cbn [pending trace]. rewrite Hall.
  cbn. rewrite <- app_assoc. reflexivity.
Qed.

(** C2.  In the sync-groups sub-flow a selection of a single target is
    not rejected: the run logs no error, asks whether to add another
    group, and writes a configuration whose [sync] is the one group of
    one target. *)
Theorem single_target_group_is_kept :
  length ["node"] < 2 /\
  fst (run ready_project one_target_group) = Ret tt /\
  errors (trace (snd (run ready_project one_target_group))) = [] /\
  In (Asked (Confirm "Add another sync group?") (Confirmed false))
     (trace (snd (run ready_project one_target_group))) /\
  written (trace (snd (run ready_project one_target_group))) =
    [ (CONFIG_FILE,
       (stringify
          (VObj [ ("$schema", VStr CONFIG_SCHEMA_URL);
                  ("defaultReleaseType", VStr "patch");
                  ("targets", VObj [("node", VBool true); ("deno", VBool true)]);
                  ("targetsPath", VObj [("node", VStr "./package.json");
                                        ("deno", VStr "./deno.json")]);
                  ("sync", VArr [VArr [VStr "node"]]) ]) ++ newline)%string) ].
Proof.
  split; [simpl; lia|]. split; [vm_compute; reflexivity|].
  split; [vm_compute; reflexivity|].
  split; [vm_compute; auto 30 | vm_compute; reflexivity].
Qed.

(** * Further properties of the code *)

(** ** The configuration probe *)

(** X1.  [hasConfig] always answers: it neither throws nor stops, even
    when the manifest is missing, unparsable or [null]; it takes no
    answer from the user and only drives the spinner.  It answers [true]
    exactly when the glob found a file or the manifest has a truthy
    [release-hub] field. *)
Theorem hasConfig_decides (w : world) (s : state) :
  exists b d,
    hasConfig w s = (Ret b, {| pending := pending s; trace := trace s ++ d |}) /\
    Forall spinner_event d /\
    (b = true <-> has_config w).
Proof. exact (hasConfig_returns w s). Qed.

(** ** Detection and the install table *)



(** ** The install step *)

(** X3.  In the install step a subprocess is started only after the
    user said yes, and it is the command the table holds for the
    detected manager; the success of the installation is announced only
    if that subprocess exited with code 0; and when the step throws, the
    spinner it may have started is not stopped and nothing is announced.
    After a no, the step logs that it skips the installation and starts
    nothing. *)
Theorem install_step_behaviour (w : world) (s : state) :
  exists d,
    trace (snd (installStep w s)) = trace s ++ d /\
    (forall cmd args,
       In (Spawned cmd args) d ->
       (exists rest, pending s = Confirmed true :: rest) /\
       lookup (detectPackageManager w) PACKAGE_INSTALL = Some (cmd, args)) /\
    (forall text,
       In (SpinnerStop text) d ->
       text = (NAME ++ " installed successfully")%string /\
       fst (installStep w s) = Ret tt /\
       exists cmd args, In (Spawned cmd args) d /\ spawn w cmd args = ExitCode 0) /\
    ((exists rest, pending s = Confirmed false :: rest) ->
     fst (installStep w s) = Ret tt /\
     d = [Asked (install_question w) (Confirmed false); LogInfo "Skipping installation"]).
Proof.
  unfold installStep, install_question. cbv zeta.
  remember (detectPackageManager w) as pm eqn:Hpm.
  remember (lookup pm PACKAGE_INSTALL) as entry eqn:Hentry.
  unfold confirm, exitOnCancel, destructure, spawnAsync, bind, next, ret, throw, stuck,
    log_info, log_error, s_start, s_stop, emit, exit.
  destruct (pending s) as [|a rest] eqn:Hp; simpl.
  { exists []. rewrite app_nil_r. split; [reflexivity|].
    split; [intros ? ? []|]. split; [intros ? []|]. intros [? H]; discriminate H. }
  destruct a as [| b | v | vs | t]; simpl;
    try (eexists [_]; split; [reflexivity|];
         split; [intros ? ? [H | []]; discriminate H|];
         split; [intros ? [H | []]; discriminate H|];
         intros [? H]; discriminate H).
  { eexists [_; _]. split; [rewrite <- app_assoc; reflexivity|].
    split; [intros ? ? [H | [H | []]]; discriminate H|].
    split; [intros ? [H | [H | []]]; discriminate H|].
    intros [? H]; discriminate H. }
  destruct b; simpl.
  - destruct entry as [[cmd cmdArgs]|]; simpl.
    + assert (Hyes : exists rest0, Confirmed true :: rest = Confirmed true :: rest0)
        by (exists rest; reflexivity).
      destruct (spawn w cmd cmdArgs) as [code | | e] eqn:Hs; simpl;
        [destruct (code =? 0)%Z eqn:Hc; simpl| |].
      * apply Z.eqb_eq in Hc. subst code.
        eexists [_; _; _; _]. split; [rewrite <- !app_assoc; reflexivity|].
        split; [|split].
        -- intros c a [H | [H | [H | [H | []]]]]; try discriminate H.
           injection H as <- <-. auto.
        -- intros text [H | [H | [H | [H | []]]]]; try discriminate H.
           injection H as <-. split; [reflexivity|]. split; [reflexivity|].
           exists cmd, cmdArgs. split; [simpl; auto | exact Hs].
        -- intros [? H]; discriminate H.
      * eexists [_; _; _]. split; [rewrite <- !app_assoc; reflexivity|].
        split; [|split].
        -- intros c a [H | [H | [H | []]]]; try discriminate H.
           injection H as <- <-. auto.
        -- intros text [H | [H | [H | []]]]; discriminate H.
        -- intros [? H]; discriminate H.
      * eexists [_; _; _]. split; [rewrite <- !app_assoc; reflexivity|].
        split; [|split].
        -- intros c a [H | [H | [H | []]]]; try discriminate H.
           injection H as <- <-. auto.
        -- intros text [H | [H | [H | []]]]; discriminate H.
        -- intros [? H]; discriminate H.
      * eexists [_; _; _]. split; [rewrite <- !app_assoc; reflexivity|].
        split; [|split].
        -- intros c a [H | [H | [H | []]]]; try discriminate H.
           injection H as <- <-. auto.
        -- intros text [H | [H | [H | []]]]; discriminate H.
        -- intros [? H]; discriminate H.
    + eexists [_]. split; [reflexivity|].
      split; [intros ? ? [H | []]; discriminate H|].
      split; [intros ? [H | []]; discriminate H|].
      intros [? H]; discriminate H.
  - eexists [_; _]. split; [rewrite <- app_assoc; reflexivity|].
    split; [intros ? ? [H | [H | []]]; discriminate H|].
    split; [intros ? [H | [H | []]]; discriminate H|].
    intros _. split; reflexivity.
Qed.

(** ** Sync groups, in general *)

Lemma session_length (first : list string) (more : list (list string)) :
  length more < length (session first more).
Proof.
  revert first. induction more as [|g more IH]; intros first; simpl; [lia|].
  specialize (IH g). lia.
Qed.

Lemma syncGroupsLoop_session (w : world) (more : list (list string)) :
  forall first acc s rest fuel,
    (forall g, In g (first :: more) -> forall t, In t g -> In t options) ->
    pending s = session first more ++ rest ->
    length more < fuel ->
    exists d,
      syncGroupsLoop fuel w true acc s =
        Some (Ret (acc ++ first :: more), {| pending := rest; trace := trace s ++ d |}) /\
      Forall (fun e => exists p a, e = Asked p a /\ In a (session first more)) d.
Proof.
  induction more as [|g more IH]; intros first acc s rest fuel Hopt Hp Hfuel;
    (destruct fuel as [|fuel]; [lia|]); simpl in Hp |- *.
  - rewrite (syncGroupsBody_appends w acc s first false rest Hp)
      by (apply Hopt; left; reflexivity).
    destruct fuel; simpl; eexists; (split; [reflexivity|]);
      repeat constructor; eexists _, _; split; try reflexivity; simpl; auto.
  - rewrite (syncGroupsBody_appends w acc s first true _ Hp)
      by (apply Hopt; left; reflexivity).
    edestruct (IH g (acc ++ [first])
                 {| pending := session g more ++ rest;
                    trace := trace s ++
                             [Asked (Multiselect "Select targets to sync together:")
                                    (PickedMany first);
                              Asked (Confirm "Add another sync group?") (Confirmed true)] |}
                 rest fuel) as (d & Heq & Hd).
    + intros g' Hg'. apply Hopt. right. exact Hg'.
    + reflexivity.
    + simpl in Hfuel. lia.
    + rewrite Heq. cbn [trace]. rewrite <- !app_assoc. eexists. split; [reflexivity|].
      constructor; [eexists _, _; split; [reflexivity | simpl; auto]|].
      constructor; [eexists _, _; split; [reflexivity | simpl; auto]|].
      eapply Forall_impl; [|exact Hd].
      intros e (p & a & -> & Ha). exists p, a. split; [reflexivity|]. simpl. auto.
Qed.

(** X5.  In the sync-groups loop, a user who submits one group after
    another, says yes after each but the last and no after the last,
    gets exactly these groups, in the order and with the members as
    submitted, whatever their sizes; the loop takes these answers and
    no more, logs no complaint and shows nothing but its two
    questions. *)
Theorem sync_groups_session (w : world) (s : state)
  (first : list string) (more : list (list string)) (rest : list answer) :
  (forall g, In g (first :: more) -> forall t, In t g -> In t options) ->
  pending s = session first more ++ rest ->
  exists d,
    syncGroupsFlow w s =
      (Ret (first :: more), {| pending := rest; trace := trace s ++ d |}) /\
    errors d = [] /\
    Forall (fun e => exists p a, e = Asked p a /\ In a (session first more)) d.
Proof.
  intros Hopt Hp. unfold syncGroupsFlow.
  destruct (syncGroupsLoop_session w more first [] s rest (S (length (pending s))) Hopt Hp)
    as (d & -> & Hd).
  { rewrite Hp, length_app. pose proof (session_length first more). lia. }
  exists d. split; [reflexivity|]. split; [|exact Hd].
  clear - Hd. induction Hd as [|e d (p & a & -> & _) _ IH]; [reflexivity | exact IH].
Qed.

Lemma sync_groups_session_witness :
  pending (start (session ["deno"] [["node"; "jsr"]; ["jsr"; "webext"]] ++ [Cancel])) =
    session ["deno"] [["node"; "jsr"]; ["jsr"; "webext"]] ++ [Cancel] /\
  fst (syncGroupsFlow ready_project
         (start (session ["deno"] [["node"; "jsr"]; ["jsr"; "webext"]] ++ [Cancel]))) =
    Ret [["deno"]; ["node"; "jsr"]; ["jsr"; "webext"]].
Proof.
  split; [reflexivity|].
  destruct (sync_groups_session ready_project
              (start (session ["deno"] [["node"; "jsr"]; ["jsr"; "webext"]] ++ [Cancel]))
              ["deno"] [["node"; "jsr"]; ["jsr"; "webext"]] [Cancel]) as (d & Heq & _).
  - intros g Hg t Ht. simpl in Hg.
    destruct Hg as [<- | [<- | [<- | []]]]; simpl in Ht; unfold options; simpl; intuition.
  - reflexivity.
  - rewrite Heq. reflexivity.
Defined.

(** ** Paths *)

Lemma text_from_asked (w : world) (message : string) (answers : list answer) :
  forall tr, exists d,
    trace (snd (text_from message validate answers tr)) = tr ++ d /\
    match fst (text_from message validate answers tr) with
    | Ret (Value v) =>
        quiet w d /\ validate v = None /\ In (Asked (Text message) (Typed v)) d
    | Ret CancelSymbol => exists d0 q, quiet w d0 /\ d = d0 ++ [Asked q Cancel]
    | Throw _ => False
    | Halt (Exited _) => False
    | Halt _ => quiet w d
    end.
Proof.
  induction answers as [|a rest IH]; intros tr; simpl.
  - exists []. rewrite app_nil_r. auto using quiet_nil.
  - destruct a; simpl; try refused.
    + cancelled_at (Text message).
    + destruct (validate s) eqn:Hv.
      * destruct (IH (tr ++ [Asked (Text message) (Typed s)])) as (d & Ht & Ho).
        exists (Asked (Text message) (Typed s) :: d).
        split; [rewrite Ht, <- app_assoc; reflexivity|].
        destruct (fst (text_from _ _ rest _)) as [[|v] | e | [code | |]];
          try contradiction.
        -- destruct Ho as (d0 & q & Hq & ->).
           exists (Asked (Text message) (Typed s) :: d0), q.
           split; [constructor; [exact I | exact Hq] | reflexivity].
        -- destruct Ho as (Hq & Hval & Hin).
           split; [constructor; [exact I | exact Hq]|]. split; [exact Hval|].
           right. exact Hin.
        -- constructor; [exact I | exact Ho].
        -- constructor; [exact I | exact Ho].
      * one_event. split; [apply quiet_one; exact I|]. split; [exact Hv|].
        left. reflexivity.
Qed.

Lemma collectPaths_provenance (w : world) (askTargets : list string) :
  forall acc,
    sound w (collectPaths askTargets acc)
      (fun tp d =>
         quiet w d /\
         forall t v,
           lookup t tp = Some v ->
           lookup t acc = Some v \/
           exists r, v = VStr r /\ validate r = None /\
                     In (Asked (path_question t) (Typed r)) d).
Proof.
  induction askTargets as [|t0 rest IH]; intros acc; simpl.
  - apply sound_ret. split; [apply quiet_nil | auto].
  - apply sound_ask
      with (Q := fun v d => validate v = None /\ In (Asked (path_question t0) (Typed v)) d).
    { intros s. unfold text. apply text_from_asked. }
    intros r d1 Hq1 [Hr Hin].
    eapply sound_weaken; [apply IH|].
    intros tp d2 (Hq2 & Hprov). split; [apply quiet_app; assumption|].
    intros t v Hl. destruct (Hprov t v Hl) as [Hacc | (r' & -> & Hr' & Hin')].
    + rewrite lookup_obj_set in Hacc.
      destruct (String.eqb_spec t t0) as [-> | _]; [|left; exact Hacc].
      right. unfold or_else in Hacc. rewrite (validate_truthy r Hr) in Hacc.
      injection Hacc as <-. exists r. split; [reflexivity|]. split; [exact Hr|].
      apply in_or_app. left. exact Hin.
    + right. exists r'. split; [reflexivity|]. split; [exact Hr'|].
      apply in_or_app. right. exact Hin'.
Qed.

(** X6.  When the loop over the selected targets comes back, every
    entry of [targetsPath] holds, as a string, an answer the user typed
    at the path question of that very target, one that starts with [./]
    or [../]; the built-in default path is never substituted for what
    the user typed. *)
Theorem paths_are_typed_answers (askTargets : list string) (s s' : state)
  (targetsPath : list (string * value)) :
  collectPaths askTargets [] s = (Ret targetsPath, s') ->
  exists d,
    trace s' = trace s ++ d /\
    forall t v,
      lookup t targetsPath = Some v ->
      exists r,
        v = VStr r /\
        (startsWith r "./" || startsWith r "../")%bool = true /\
        In (Asked (path_question t) (Typed r)) d.
Proof.
  intros Heq.
  destruct (collectPaths_provenance ready_project askTargets [] s) as (d & Ht & Ho).
  rewrite Heq in Ht, Ho. simpl in Ht, Ho. destruct Ho as [_ Hprov].
  exists d. split; [exact Ht|].
  intros t v Hl. destruct (Hprov t v Hl) as [Hacc | (r & -> & Hr & Hin)];
    [discriminate Hacc|].
  exists r. split; [reflexivity|]. split; [|exact Hin].
  unfold validate in Hr.
  destruct (startsWith r "./" || startsWith r "../")%bool; [reflexivity | discriminate Hr].
Qed.

Lemma paths_are_typed_answers_witness :
  collectPaths ["node"; "jsr"] []
    (start [Typed "package.json"; Typed "../pkg/package.json"; Typed "./jsr.json"]) =
    (Ret [("node", VStr "../pkg/package.json"); ("jsr", VStr "./jsr.json")],
     {| pending := [];
        trace := [ Asked (path_question "node") (Typed "package.json");
                   Asked (path_question "node") (Typed "../pkg/package.json");
                   Asked (path_question "jsr") (Typed "./jsr.json") ] |}) /\
  exists d,
    [ Asked (path_question "node") (Typed "package.json");
      Asked (path_question "node") (Typed "../pkg/package.json");
      Asked (path_question "jsr") (Typed "./jsr.json") ] = [] ++ d /\
    forall t v,
      lookup t [("node", VStr "../pkg/package.json"); ("jsr", VStr "./jsr.json")] = Some v ->
      exists r,
        v = VStr r /\
        (startsWith r "./" || startsWith r "../")%bool = true /\
        In (Asked (path_question t) (Typed r)) d.
Proof.
  assert (H : collectPaths ["node"; "jsr"] []
                (start [Typed "package.json"; Typed "../pkg/package.json";
                        Typed "./jsr.json"]) =
              (Ret [("node", VStr "../pkg/package.json"); ("jsr", VStr "./jsr.json")],
               {| pending := [];
                  trace := [ Asked (path_question "node") (Typed "package.json");
                             Asked (path_question "node") (Typed "../pkg/package.json");
                             Asked (path_question "jsr") (Typed "./jsr.json") ] |}))
    by reflexivity.
  split; [exact H|].
  exact (paths_are_typed_answers _ _ _ _ H).
Defined.

(** ** From the answers to the object *)

Lemma select_asked (w : world) (message : string) (choices : list string) :
  prompt_sound w (select message choices)
    (fun v d => d = [Asked (Select message) (Picked v)] /\ In v choices).
Proof.
  unfold select. prompt_cases s a; try refused.
  - cancelled_at (Select message).
  - destruct (member v choices) eqn:Hm; simpl; [|refused].
    one_event. split; [apply quiet_one; exact I|].
    split; [reflexivity | apply member_In, Hm].
Qed.

Lemma syncGroupsBody_grows (w : world) (syncGroups : list (list string)) (s : state)
  (again : bool) (groups : list (list string)) :
  fst (syncGroupsBody w syncGroups s) = Ret (again, groups) ->
  exists g, groups = syncGroups ++ [g].
Proof.
  unfold syncGroupsBody, multiselect, confirm, exitOnCancel, read, bind, next, ret,
    stuck, log_error, emit, exit.
  destruct (pending s) as [|a rest]; simpl; [discriminate|].
  destruct a; simpl; try discriminate.
  destruct (forallb _ vs); simpl; [|discriminate].
  destruct rest as [|b rest']; simpl; [discriminate|].
  destruct b; simpl; try discriminate.
  intros H. injection H as _ <-. exists vs. reflexivity.
Qed.

Lemma syncGroupsLoop_grows (w : world) (fuel : nat) :
  forall addMore acc s groups s',
    syncGroupsLoop fuel w addMore acc s = Some (Ret groups, s') ->
    exists more, groups = acc ++ more /\ (addMore = true -> more <> []).
Proof.
  induction fuel as [|fuel IH]; intros addMore acc s groups s'; destruct addMore; simpl;
    try discriminate;
    try (intros H; injection H as <- _; exists []; split;
         [symmetry; apply app_nil_r | discriminate]).
  destruct (syncGroupsBody w acc s) as [[[again groups1] | e | h] s1] eqn:Hb;
    try discriminate.
  intros H. destruct (syncGroupsBody_grows w acc s again groups1) as [g ->];
    [rewrite Hb; reflexivity|].
  destruct (IH again (acc ++ [g]) s1 groups s' H) as (more & -> & _).
  exists (g :: more). split; [rewrite <- app_assoc; reflexivity | discriminate].
Qed.

Lemma syncGroupsFlow_some (w : world) :
  sound w (syncGroupsFlow w) (fun groups d => quiet w d /\ groups <> []).
Proof.
  intros s. destruct (syncGroupsFlow_sound w s) as (d & Ht & Ho).
  exists d. split; [exact Ht|].
  destruct (fst (syncGroupsFlow w s)) as [groups | e | h] eqn:Hr; simpl in *; auto.
  split; [tauto|].
  unfold syncGroupsFlow in Hr.
  destruct (syncGroupsLoop (S (length (pending s))) w true [] s) as [[r s']|] eqn:Hloop;
    simpl in Hr; [|discriminate Hr].
  subst r. destruct (syncGroupsLoop_grows w _ _ _ _ _ _ Hloop) as (more & -> & Hmore).
  simpl. auto.
Qed.

Lemma assemble_reflects (w : world) :
  sound w (assemble w config)
    (fun cfg d =>
       quiet w d /\
       exists release mode,
         In (Asked release_question (Picked release)) d /\
         In (Asked sync_question (Picked mode)) d /\
         lookup "defaultReleaseType" cfg = Some (VStr release) /\
         ((mode = "all" /\ lookup "sync" cfg = Some (VBool true)) \/
          (mode = "none" /\ lookup "sync" cfg = Some (VBool false)) \/
          (mode = "groups" /\
           exists groups, groups <> [] /\
                          lookup "sync" cfg = Some (VArr (map array_of groups))))).
Proof.
  unfold assemble.
  apply sound_ask
    with (Q := fun v d => d = [Asked release_question (Picked v)] /\
                          In v ["major"; "minor"; "patch"]);
    [apply select_asked|].
  intros release d1 Hq1 [Hd1 _].
  eapply sound_ask; [apply multiselect_sound|].
  intros askTargets d2 Hq2 _.
  eapply sound_bind; [apply collectPaths_sound|].
  intros tp d3 (Hq3 & _). split; [exact Hq3|].
  apply sound_ask
    with (Q := fun v d => d = [Asked sync_question (Picked v)] /\
                          In v ["all"; "none"; "groups"]);
    [apply select_asked|].
  intros syncMode d4 Hq4 [Hd4 Hmode].
  assert (Hasked : forall d5,
             In (Asked release_question (Picked release)) (d1 ++ d2 ++ d3 ++ d4 ++ d5) /\
             In (Asked sync_question (Picked syncMode)) (d1 ++ d2 ++ d3 ++ d4 ++ d5)).
  { intros d5. subst d1 d4. rewrite !in_app_iff. simpl. auto 8. }
  destruct Hmode as [<- | [<- | [<- | []]]]; cbn.
  - apply sound_ret. split; [auto using quiet_app, quiet_nil|].
    exists release, "all". destruct (Hasked []). auto 8.
  - apply sound_ret. split; [auto using quiet_app, quiet_nil|].
    exists release, "none". destruct (Hasked []). auto 8.
  - eapply sound_bind; [apply sound_emit; exact I|].
    intros _ d5 [Hq5 _]. split; [exact Hq5|].
    eapply sound_bind; [apply syncGroupsFlow_some|].
    intros syncGroups d6 [Hq6 Hsome]. split; [exact Hq6|].
    apply sound_ret. rewrite app_nil_r.
    split; [repeat (apply quiet_app; [assumption|]); assumption|].
    exists release, "groups". destruct (Hasked (d5 ++ d6)) as [Hr Hm].
    split; [exact Hr|]. split; [exact Hm|]. split; [reflexivity|].
    right. right. split; [reflexivity|].
    exists syncGroups. split; [exact Hsome | reflexivity].
Qed.

(** X7.  When the assembler returns, [defaultReleaseType] is the release
    type the user picked and [sync] follows the mode the user picked:
    [true] for all, [false] for none, and for groups an array of groups
    that is never empty, since the loop always takes a first group. *)
Theorem config_reflects_answers (w : world) (s s' : state)
  (cfg : list (string * value)) :
  assemble w config s = (Ret cfg, s') ->
  exists d release mode,
    trace s' = trace s ++ d /\
    In (Asked release_question (Picked release)) d /\
    In (Asked sync_question (Picked mode)) d /\
    lookup "defaultReleaseType" cfg = Some (VStr release) /\
    ((mode = "all" /\ lookup "sync" cfg = Some (VBool true)) \/
     (mode = "none" /\ lookup "sync" cfg = Some (VBool false)) \/
     (mode = "groups" /\
      exists groups, groups <> [] /\
                     lookup "sync" cfg = Some (VArr (map array_of groups)))).
Proof.
  intros Heq. destruct (assemble_reflects w s) as (d & Ht & Ho).
  rewrite Heq in Ht, Ho. simpl in Ht, Ho.
  destruct Ho as (_ & release & mode & H). exists d, release, mode. tauto.
Qed.

Lemma config_reflects_answers_witness :
  fst (assemble ready_project config
         (start [Picked "major"; PickedMany ["node"]; Typed "./package.json";
                 Picked "none"]))
  = Ret [ ("$schema", VStr CONFIG_SCHEMA_URL);
          ("defaultReleaseType", VStr "major");
          ("targets", VObj [("node", VBool true)]);
          ("targetsPath", VObj [("node", VStr "./package.json")]);
          ("sync", VBool false) ] /\
  exists release mode,
    lookup "defaultReleaseType"
      [ ("$schema", VStr CONFIG_SCHEMA_URL);
        ("defaultReleaseType", VStr "major");
        ("targets", VObj [("node", VBool true)]);
        ("targetsPath", VObj [("node", VStr "./package.json")]);
        ("sync", VBool false) ] = Some (VStr release) /\
    In mode ["all"; "none"; "groups"].
Proof.
  split; [reflexivity|].
  destruct (config_reflects_answers ready_project
              (start [Picked "major"; PickedMany ["node"]; Typed "./package.json";
                      Picked "none"]) _ _ eq_refl)
    as (d & release & mode & _ & _ & _ & Hr & Hm).
  exists release, mode. split; [exact Hr|].
  destruct Hm as [[-> _] | [[-> _] | [-> _]]]; simpl; auto.
Defined.

(** ** What a run may start and write *)

Section Emits.

Variable ok : event -> Prop.
Hypothesis harmless_ok : forall e, harmless e -> ok e.

Lemma emits_nothing {A : Type} (m : M A) :
  (forall s, snd (m s) = s) -> emits ok m.
Proof.
  intros H s. exists []. rewrite H, app_nil_r. split; [reflexivity | constructor].
Qed.

Lemma emits_emit (e : event) : ok e -> emits ok (emit e).
Proof.
  intros He s. exists [e]. split; [reflexivity|]. constructor; [exact He | constructor].
Qed.

Lemma emits_bind {A B : Type} (m : M A) (k : A -> M B) :
  emits ok m -> (forall a, emits ok (k a)) -> emits ok (bind m k).
Proof.
  intros Hm Hk s. unfold bind. destruct (Hm s) as (d1 & Ht1 & Hd1).
  destruct (m s) as [[a | e | h] s1]; simpl in *; try solve [exists d1; auto].
  destruct (Hk a s1) as (d2 & Ht2 & Hd2). exists (d1 ++ d2).
  split; [rewrite Ht2, Ht1; symmetry; apply app_assoc|].
  apply Forall_app. auto.
Qed.

Lemma emits_bind_ret {A B : Type} (a : A) (k : A -> M B) :
  emits ok (k a) -> emits ok (bind (ret a) k).
Proof. intros H s. exact (H s). Qed.

Lemma emits_try_catch {A : Type} (m : M A) (handler : exn -> M A) :
  emits ok m -> (forall e, emits ok (handler e)) -> emits ok (try_catch m handler).
Proof.
  intros Hm Hh s. unfold try_catch. destruct (Hm s) as (d1 & Ht1 & Hd1).
  destruct (m s) as [[a | e | h] s1]; simpl in *; try solve [exists d1; auto].
  destruct (Hh e s1) as (d2 & Ht2 & Hd2). exists (d1 ++ d2).
  split; [rewrite Ht2, Ht1; symmetry; apply app_assoc|].
  apply Forall_app. auto.
Qed.

Lemma emits_next (p : prompt) : emits ok (next p).
Proof.
  intros s. unfold next. destruct (pending s) as [|a rest]; simpl.
  - exists []. rewrite app_nil_r. split; [reflexivity | constructor].
  - exists [Asked p a]. split; [reflexivity|].
    constructor; [apply harmless_ok; exact I | constructor].
Qed.

Ltac emits_go :=
  repeat first
    [ apply emits_nothing; reflexivity
    | apply emits_next
    | apply emits_emit; apply harmless_ok; exact I
    | apply emits_bind; [|intros ?]
    | apply emits_try_catch; [|intros ?]
    | match goal with
      | |- emits _ (match ?x with _ => _ end) => destruct x
      | |- emits _ (if ?b then _ else _) => destruct b
      end ].

Lemma emits_exitOnCancel {A : Type} (result : prompted A) :
  emits ok (exitOnCancel result).
Proof. unfold exitOnCancel, log_error, exit, ret. emits_go. Qed.

Lemma emits_confirm (message : string) : emits ok (confirm message).
Proof. unfold confirm, ret, stuck. emits_go. Qed.

Lemma emits_select (message : string) (choices : list string) :
  emits ok (select message choices).
Proof. unfold select, ret, stuck. emits_go. Qed.

Lemma emits_multiselect (message : string) (choices : list string) :
  emits ok (multiselect message choices).
Proof. unfold multiselect, ret, stuck. emits_go. Qed.

Lemma emits_text (message : string) (check : string -> option string) :
  emits ok (text message check).
Proof.
  intros s. unfold text. generalize (trace s) as tr.
  induction (pending s) as [|a rest IH]; intros tr; simpl.
  - exists []. rewrite app_nil_r. split; [reflexivity | constructor].
  - assert (Hone : Forall ok [Asked (Text message) a])
      by (constructor; [apply harmless_ok; exact I | constructor]).
    destruct a; simpl; try (eexists; split; [reflexivity | exact Hone]).
    destruct (check s0); [|eexists; split; [reflexivity | exact Hone]].
    destruct (IH (tr ++ [Asked (Text message) (Typed s0)])) as (d & Ht & Hd).
    exists (Asked (Text message) (Typed s0) :: d).
    split; [rewrite Ht, <- app_assoc; reflexivity|].
    constructor; [apply harmless_ok; exact I | exact Hd].
Qed.

Lemma emits_collectPaths (askTargets : list string) :
  forall acc, emits ok (collectPaths askTargets acc).
Proof.
  induction askTargets as [|t rest IH]; intros acc; simpl.
  - apply emits_nothing. reflexivity.
  - apply emits_bind; [apply emits_text | intros r].
    apply emits_bind; [apply emits_exitOnCancel | intros r']. apply IH.
Qed.

Lemma emits_syncGroupsBody (w : world) (syncGroups : list (list string)) :
  emits ok (syncGroupsBody w syncGroups).
Proof.
  unfold syncGroupsBody.
  apply emits_bind; [apply emits_multiselect | intros group].
  apply emits_bind; [apply emits_exitOnCancel | intros group'].
  cbv zeta. unfold read, log_error, ret, throw.
  emits_go; first [apply emits_confirm | apply emits_exitOnCancel].
Qed.

Lemma emits_syncGroupsLoop (w : world) (fuel : nat) :
  forall addMore acc s r s',
    syncGroupsLoop fuel w addMore acc s = Some (r, s') ->
    exists d, trace s' = trace s ++ d /\ Forall ok d.
Proof.
  induction fuel as [|fuel IH]; intros addMore acc s r s'; destruct addMore; simpl;
    try discriminate;
    try (intros H; injection H as _ <-; exists []; rewrite app_nil_r;
         split; [reflexivity | constructor]).
  destruct (emits_syncGroupsBody w acc s) as (d1 & Ht1 & Hd1).
  destruct (syncGroupsBody w acc s) as [[[again groups] | e | h] s1]; simpl in *.
  - intros H. destruct (IH _ _ _ _ _ H) as (d2 & Ht2 & Hd2).
    exists (d1 ++ d2). split; [rewrite Ht2, Ht1; symmetry; apply app_assoc|].
    apply Forall_app. auto.
  - intros H. injection H as _ <-. exists d1. auto.
  - intros H. injection H as _ <-. exists d1. auto.
Qed.

Lemma emits_syncGroupsFlow (w : world) : emits ok (syncGroupsFlow w).
Proof.
  intros s. unfold syncGroupsFlow.
  destruct (syncGroupsLoop _ w true [] s) as [[r s']|] eqn:Hloop; simpl.
  - exact (emits_syncGroupsLoop w _ _ _ _ _ _ Hloop).
  - exists []. rewrite app_nil_r. split; [reflexivity | constructor].
Qed.

Lemma emits_assemble (w : world) (cfg : list (string * value)) :
  emits ok (assemble w cfg).
Proof.
  unfold assemble.
  apply emits_bind; [apply emits_select | intros r1].
  apply emits_bind; [apply emits_exitOnCancel | intros release].
  apply emits_bind; [apply emits_multiselect | intros r2].
  apply emits_bind; [apply emits_exitOnCancel | intros askTargets].
  apply emits_bind; [apply emits_collectPaths | intros tp].
  apply emits_bind; [apply emits_select | intros r3].
  apply emits_bind; [apply emits_exitOnCancel | intros syncMode].
  cbv zeta. destruct (syncMode =? "groups")%string.
  - unfold log_info.
    apply emits_bind; [apply emits_emit, harmless_ok; exact I | intros _].
    apply emits_bind; [apply emits_syncGroupsFlow | intros groups].
    apply emits_nothing. reflexivity.
  - apply emits_nothing. reflexivity.
Qed.

Lemma emits_hasConfig (w : world) : emits ok (hasConfig w).
Proof.
  unfold hasConfig, readManifest, read, s_start, s_stop, ret, throw. cbv zeta.
  emits_go.
Qed.

Lemma emits_hasLib (w : world) : emits ok (hasLib w).
Proof. unfold hasLib, s_start, s_stop, ret. cbv zeta. emits_go. Qed.

Lemma emits_main (w : world) :
  (forall cmd args,
     lookup (detectPackageManager w) PACKAGE_INSTALL = Some (cmd, args) ->
     ok (Spawned cmd args)) ->
  (forall content, ok (Wrote CONFIG_FILE content)) ->
  emits ok (main w).
Proof.
  intros Hspawn Hwrite. unfold main, body, report, intro, outro, log_info, log_success,
    log_error, s_start, s_stop.
  apply emits_try_catch; [|intros e; apply emits_emit, harmless_ok; exact I].
  apply emits_bind; [apply emits_emit, harmless_ok; exact I | intros _].
  apply emits_bind; [apply emits_hasConfig | intros existing].
  apply emits_bind; [destruct existing; apply emits_nothing; reflexivity | intros _].
  apply emits_bind; [apply emits_hasLib | intros isInstalled].
  apply emits_bind.
  { destruct isInstalled; cbn [negb]; [apply emits_nothing; reflexivity|].
    unfold installStep. cbv zeta.
    apply emits_bind; [apply emits_confirm | intros r].
    apply emits_bind; [apply emits_exitOnCancel | intros shouldInstall].
    destruct shouldInstall; cbn [negb];
      [|apply emits_emit, harmless_ok; exact I].
    destruct (lookup (detectPackageManager w) PACKAGE_INSTALL) as [[cmd cmdArgs]|] eqn:Hl;
      unfold destructure; [|apply emits_nothing; reflexivity].
    apply emits_bind_ret.
    apply emits_bind; [apply emits_emit, harmless_ok; exact I | intros _].
    apply emits_bind; [|intros _; apply emits_emit, harmless_ok; exact I].
    unfold spawnAsync, ret, throw.
    apply emits_bind; [|intros _; emits_go].
    apply emits_emit, Hspawn. reflexivity. }
  intros _.
  apply emits_bind; [apply emits_emit, harmless_ok; exact I | intros _].
  apply emits_bind; [apply emits_assemble | intros cfg].
  apply emits_bind; [apply emits_emit, harmless_ok; exact I | intros _].
  apply emits_bind; [apply emits_emit, harmless_ok; exact I | intros _].
  apply emits_bind.
  { unfold writeFile, throw. destruct (write_failure w);
      [apply emits_nothing; reflexivity | apply emits_emit, Hwrite]. }
  intros _.
  apply emits_bind; [apply emits_emit, harmless_ok; exact I | intros _].
  apply emits_emit, harmless_ok. exact I.
Qed.

End Emits.

Lemma lookup_In {A : Type} (k : string) (l : list (string * A)) (v : A) :
  lookup k l = Some v -> In (k, v) l.
Proof.
  induction l as [|[k' v'] rest IH]; simpl; [discriminate|].
  destruct (String.eqb_spec k k') as [<- | _].
  - intros H. injection H as <-. left. reflexivity.
  - intros H. right. apply IH, H.
Qed.

Lemma install_entry (pm cmd : string) (args : list string) :
  lookup pm PACKAGE_INSTALL = Some (cmd, args) -> cmd = pm /\ In pm managers.
Proof.
  unfold PACKAGE_INSTALL, lookup.
  destruct (String.eqb_spec pm "npm") as [-> | _];
    [intros H; injection H as <- _; split; [reflexivity | cbv; auto]|].
  destruct (String.eqb_spec pm "yarn") as [-> | _];
    [intros H; injection H as <- _; split; [reflexivity | cbv; auto]|].
  destruct (String.eqb_spec pm "pnpm") as [-> | _];
    [intros H; injection H as <- _; split; [reflexivity | cbv; auto]|].
  destruct (String.eqb_spec pm "bun") as [-> | _];
    [intros H; injection H as <- _; split; [reflexivity | cbv; auto 6]|].
  discriminate.
Qed.

(** X8.  Whatever the project and the answers, the only command a run
    ever starts is one of the four entries of the install table, the one
    of the detected manager, with the table's fixed arguments: no text
    of the manifest or of the environment reaches the command line.  And
    the only path a run ever writes to is the configuration file. *)
Theorem only_table_commands (w : world) (answers : list answer) :
  let tr := trace (snd (run w answers)) in
  (forall cmd args,
     In (Spawned cmd args) tr ->
     cmd = detectPackageManager w /\
     In cmd managers /\
     In (cmd, (cmd, args)) PACKAGE_INSTALL) /\
  (forall path content, In (Wrote path content) tr -> path = CONFIG_FILE).
Proof.
  cbv zeta.
  assert (Hall : Forall (permitted w) (trace (snd (run w answers)))).
  { unfold run.
    destruct (emits_main (permitted w)) with (w := w)
                                             (s := {| pending := answers; trace := [] |})
      as (d & -> & Hd).
    - intros e He. destruct e; try exact I; destruct He.
    - intros cmd args H. exact H.
    - intros content. reflexivity.
    - exact Hd. }
  rewrite Forall_forall in Hall. split.
  - intros cmd args Hin. specialize (Hall _ Hin). simpl in Hall.
    destruct (install_entry _ _ _ Hall) as [-> Hm].
    split; [reflexivity|]. split; [exact Hm | apply lookup_In, Hall].
  - intros path content Hin. exact (Hall _ Hin).
Qed.

(** ** The revision without prompts *)

Lemma index_hasConfig_returns (w : world) (tr : list Index.event) :
  exists b d,
    Index.hasConfig w tr = (Ret b, tr ++ d) /\
    Forall index_quiet d /\
    (b = true <-> has_config w).
Proof.
  unfold Index.hasConfig, has_config, Index.try_catch, Index.readManifest, Index.read,
    Index.bind, Index.emit, Index.ret, Index.throw.
  destruct (glob_matches w) as [|f fs] eqn:Hg; simpl.
  - destruct (manifest w) as [e | pkg] eqn:Hm; simpl.
    + exists false; eexists [_; _; _]. split; [rewrite <- !app_assoc; reflexivity|].
      split; [repeat constructor|]. split; [discriminate|].
      intros [H | (pkg & v & H & _)]; [contradiction | discriminate].
    + destruct (get_prop pkg "release-hub") as [field|] eqn:Hf; simpl.
      * destruct (truthy field) eqn:Ht; simpl.
        -- exists true; eexists [_; _; _].
           split; [rewrite <- !app_assoc; reflexivity|].
           split; [repeat constructor|]. split; [|reflexivity].
           intros _. right. exists pkg, field. auto.
        -- exists false; eexists [_; _; _].
           split; [rewrite <- !app_assoc; reflexivity|].
           split; [repeat constructor|]. split; [discriminate|].
           intros [H | (pkg' & v & H & Hv & Hv')]; [contradiction|].
           injection H as <-. congruence.
      * exists false; eexists [_; _; _].
        split; [rewrite <- !app_assoc; reflexivity|].
        split; [repeat constructor|]. split; [discriminate|].
        intros [H | (pkg' & v & H & Hv & _)]; [contradiction|].
        injection H as <-. congruence.
  - exists true; eexists [_; _]. split; [rewrite <- !app_assoc; reflexivity|].
    split; [repeat constructor|]. split; [|reflexivity].
    intros _. left. discriminate.
Qed.

(** X9.  The [hasLib] of [index.js] and the [hasLib] of the prompting
    revision give the same answer on every manifest that can be read;
    where the manifest cannot be read the first lets the read error
    through, and the second answers [false]. *)
Theorem hasLib_revisions (w : world) (tr : list Index.event) (s : state) :
  (forall pkg,
     manifest w = Parsed pkg ->
     fst (Index.hasLib w tr) = Ret (installed pkg) /\
     fst (hasLib w s) = Ret (installed pkg)) /\
  (forall e,
     manifest w = Unreadable e ->
     fst (Index.hasLib w tr) = Throw e /\
     fst (hasLib w s) = Ret false).
Proof.
  destruct (hasLib_returns w s) as (d & -> & _).
  unfold Index.hasLib, Index.readManifest, Index.bind, Index.emit, Index.ret, Index.throw.
  split; intros x Hm; rewrite Hm; split; reflexivity.
Qed.

Lemma index_bind_ret_eq {A B : Type} (m : Index.T A) (k : A -> Index.T B)
  (tr tr' : list Index.event) (a : A) :
  m tr = (Ret a, tr') -> Index.bind m k tr = k a tr'.
Proof. intros H. unfold Index.bind. rewrite H. reflexivity. Qed.

Lemma index_quiet_unwritten (d : list Index.event) :
  Forall index_quiet d -> Index.written d = [] /\ Index.errors d = [].
Proof.
  induction 1 as [|e d He _ [IHw IHe]]; [split; reflexivity|].
  unfold Index.written, Index.errors in *. simpl. rewrite IHw, IHe.
  destruct e; try (split; reflexivity); destruct He.
Qed.

Lemma index_written_app (a b : list Index.event) :
  Index.written (a ++ b) = Index.written a ++ Index.written b.
Proof. apply flat_map_app. Qed.

Lemma index_errors_app (a b : list Index.event) :
  Index.errors (a ++ b) = Index.errors a ++ Index.errors b.
Proof. apply flat_map_app. Qed.

Lemma lookup_known (pm : string) :
  In pm managers -> exists entry, lookup pm PACKAGE_INSTALL = Some entry.
Proof.
  intros [<- | [<- | [<- | [<- | []]]]]; eexists; reflexivity.
Qed.

(** X10.  A run of [index.js] always reaches the end of the module: the
    handler catches every error.  It writes at most one file,
    [./release-hub.json] holding the object with the single key
    [CONFIG_SCHEMA_URL], with no newline after it; it writes it exactly
    when no configuration exists, the manifest can be read, the library
    is installed or the detected manager is one of the table, and the
    write succeeds; and it logs an error exactly when it writes
    nothing.  How the install subprocess ends plays no part: the module
    does not wait for it (the statement leaves out the case of a shell
    that cannot be started). *)
Theorem index_run_writes_iff (w : world) :
  shell_starts w ->
  let tr := snd (Index.run w) in
  fst (Index.run w) = Ret tt /\
  (Index.written tr = [] \/
   Index.written tr = [(Index.CONFIG_FILE, stringify (VObj Index.config))]) /\
  (Index.written tr <> [] <->
   ~ has_config w /\
   (exists pkg, manifest w = Parsed pkg /\
                (installed pkg = true \/ In (detectPackageManager w) managers)) /\
   write_failure w = None) /\
  (Index.written tr <> [] <-> Index.errors tr = []).
Proof.
  intros _. cbv zeta. unfold Index.run, Index.main, Index.try_catch, Index.body.
  rewrite (index_bind_ret_eq _ _ [] [Index.Intro "create-release-hub"] tt) by reflexivity.
  destruct (index_hasConfig_returns w [Index.Intro "create-release-hub"])
    as (b & d1 & Heq & Hq1 & Hb).
  rewrite (index_bind_ret_eq _ _ _ _ _ Heq).
  assert (Hpre : Forall index_quiet ([Index.Intro "create-release-hub"] ++ d1)).
  { constructor; [exact I | exact Hq1]. }
  remember ([Index.Intro "create-release-hub"] ++ d1) as tr1 eqn:Htr1. clear Htr1 Heq d1 Hq1.
  assert (Hnorm : forall d,
             Index.written (tr1 ++ d) = Index.written d /\
             Index.errors (tr1 ++ d) = Index.errors d).
  { intros d. destruct (index_quiet_unwritten tr1 Hpre) as [Hw He].
    rewrite index_written_app, index_errors_app, Hw, He. split; reflexivity. }
  unfold Index.hasLib, Index.install, Index.readManifest, Index.destructure,
    Index.writeFile, Index.report. cbv zeta.
  remember (lookup (detectPackageManager w) PACKAGE_INSTALL) as entry eqn:Hentry.
  assert (Hnc : b = false -> ~ has_config w).
  { intros -> H. apply Hb in H. discriminate H. }
  assert (Hc : b = true -> has_config w) by apply Hb.
  clear Hb Hpre.
  unfold Index.bind, Index.emit, Index.ret, Index.throw.
  destruct b; cbn [fst snd negb];
    [| destruct (manifest w) as [e | pkg] eqn:Hm; cbn [fst snd negb];
       [| destruct (installed pkg) eqn:Hi; cbn [fst snd negb];
          [ destruct (write_failure w) as [e|] eqn:Hw; cbn [fst snd negb]
          | destruct entry as [[cmd cmdArgs]|]; cbn [fst snd negb];
            [ destruct (write_failure w) as [e|] eqn:Hw; cbn [fst snd negb] | ] ] ] ];
    rewrite <- ?app_assoc;
    match goal with
    | |- context [Index.written (tr1 ++ ?d)] =>
        destruct (Hnorm d) as [Hw' He']; rewrite Hw', He'; clear Hw' He'
    end;
    cbn [Index.written Index.errors flat_map app];
    (split; [reflexivity|]).
  - (* a configuration exists *)
    split; [left; reflexivity|].
    split; (split; [intros H; contradiction | try discriminate]).
    intros (H & _). exfalso. auto.
  - (* the manifest cannot be read *)
    split; [left; reflexivity|].
    split; (split; [intros H; contradiction | try discriminate]).
    intros (_ & (pkg & H & _) & _). discriminate H.
  - (* installed, the write fails *)
    split; [left; reflexivity|].
    split; (split; [intros H; contradiction | try discriminate]).
    intros (_ & _ & H). discriminate H.
  - (* installed, the file is written *)
    split; [right; reflexivity|].
    split; (split; [intros _ | discriminate]); [|reflexivity].
    split; [auto|]. split; [exists pkg; auto | reflexivity].
  - (* not installed, a command of the table, the write fails *)
    split; [left; reflexivity|].
    split; (split; [intros H; contradiction | try discriminate]).
    intros (_ & _ & H). discriminate H.
  - (* not installed, a command of the table, the file is written *)
    split; [right; reflexivity|].
    split; (split; [intros _ | discriminate]); [|reflexivity].
    split; [auto|]. split; [|reflexivity].
    exists pkg. split; [reflexivity|]. right.
    symmetry in Hentry. apply (install_entry _ _ _ Hentry).
  - (* not installed, no command for the detected manager *)
    split; [left; reflexivity|].
    split; (split; [intros H; contradiction | try discriminate]).
    intros (_ & (pkg' & Hp & [Hi' | Hk]) & _).
    + injection Hp as <-. congruence.
    + destruct (lookup_known _ Hk) as [entry He']. congruence.
Qed.

Lemma index_run_writes_iff_witness :
  shell_starts failing_install_project /\
  fst (Index.run failing_install_project) = Ret tt /\
  Index.written (snd (Index.run failing_install_project)) =
    [(Index.CONFIG_FILE, stringify (VObj Index.config))].
Proof.
  assert (H : shell_starts failing_install_project).
  { intros cmd args e. discriminate. }
  split; [exact H|].
  destruct (index_run_writes_iff failing_install_project H) as (Hr & [Hw | Hw] & Hiff & _);
    (split; [exact Hr|]); [|exact Hw].
  exfalso. apply (proj2 Hiff); [|exact Hw].
  split.
  - intros [Hg | (pkg & v & Hm & Hf & Ht)]; [apply Hg; reflexivity|].
    injection Hm as <-. vm_compute in Hf. injection Hf as <-. discriminate Ht.
  - split; [|reflexivity].
    exists (VObj [("name", VStr "demo")]). split; [reflexivity|].
    right. right. right. left. reflexivity.
Defined.

(** ** Consent before the installation *)

Lemma hasLib_value_iff (w : world) :
  match manifest w with
  | Unreadable _ => false
  | Parsed pkg => installed pkg
  end = true <-> depends_on_library w.
Proof.
  unfold depends_on_library. destruct (manifest w) as [e | pkg].
  - split; [discriminate|]. intros (props & section & deps & v & H & _). discriminate H.
  - rewrite installed_iff. split.
    + intros (props & section & deps & v & -> & H). exists props, section, deps, v. auto.
    + intros (props & section & deps & v & Hp & H). injection Hp as ->.
      exists props, section, deps, v. auto.
Qed.

Lemma emits_from_peel {A B : Type} (ok : event -> Prop)
  (m : M A) (k : A -> M B) (handler : exn -> M B)
  (s s1 : state) (r : res A) (d0 : list event) :
  m s = (r, s1) -> trace s1 = trace s ++ d0 -> Forall ok d0 ->
  (forall e, emits ok (handler e)) ->
  (forall a, r = Ret a -> emits_from ok (try_catch (k a) handler) s1) ->
  emits_from ok (try_catch (bind m k) handler) s.
Proof.
  intros Hm Ht Hd Hh Hk. unfold emits_from, try_catch, bind in *. rewrite Hm.
  destruct r as [a | e | h].
  - destruct (Hk a eq_refl) as (d & Ht' & Hd'). exists (d0 ++ d).
    split; [rewrite Ht', Ht; symmetry; apply app_assoc | apply Forall_app; auto].
  - destruct (Hh e s1) as (d & Ht' & Hd'). exists (d0 ++ d).
    split; [rewrite Ht', Ht; symmetry; apply app_assoc | apply Forall_app; auto].
  - exists d0. auto.
Qed.

Lemma harmless_unspawned (e : event) : harmless e -> unspawned e.
Proof. destruct e; simpl; auto. Qed.

Lemma emits_configure (w : world) (ok : event -> Prop) :
  (forall e, harmless e -> ok e) ->
  (forall content, ok (Wrote CONFIG_FILE content)) ->
  emits ok
    (bind (log_info "Configuring Release Hub") (fun _ =>
     bind (assemble w config) (fun cfg =>
     bind (log_success "Configuration complete") (fun _ =>
     bind (s_start ("Generating configuration file: " ++ CONFIG_FILE)) (fun _ =>
     bind (writeFile w CONFIG_FILE (stringify (VObj cfg) ++ newline)) (fun _ =>
     bind (s_stop ("Created configuration file: " ++ CONFIG_FILE)) (fun _ =>
     outro "You're all set!"))))))).
Proof.
  intros Hh Hwrite. unfold log_info, log_success, s_start, s_stop, outro.
  apply emits_bind; [apply emits_emit, Hh; exact I | intros _].
  apply emits_bind; [apply emits_assemble, Hh | intros cfg].
  apply emits_bind; [apply emits_emit, Hh; exact I | intros _].
  apply emits_bind; [apply emits_emit, Hh; exact I | intros _].
  apply emits_bind.
  { unfold writeFile, throw. destruct (write_failure w);
      [apply emits_nothing; reflexivity | apply emits_emit, Hwrite]. }
  intros _.
  apply emits_bind; [apply emits_emit, Hh; exact I | intros _].
  apply emits_emit, Hh. exact I.
Qed.

Lemma main_unspawned (w : world) (answers : list answer) :
  has_config w \/ depends_on_library w \/
  (forall rest, answers <> Confirmed true :: rest) ->
  emits_from unspawned (main w) (start answers).
Proof.
  intros H. unfold main, body.
  assert (Hreport : forall e, emits unspawned (report e)).
  { intros e. apply emits_emit. exact I. }
  assert (Htail : forall s,
             emits_from unspawned
               (try_catch
                  (bind (log_info "Configuring Release Hub") (fun _ =>
                   bind (assemble w config) (fun cfg =>
                   bind (log_success "Configuration complete") (fun _ =>
                   bind (s_start ("Generating configuration file: " ++ CONFIG_FILE)) (fun _ =>
                   bind (writeFile w CONFIG_FILE (stringify (VObj cfg) ++ newline)) (fun _ =>
                   bind (s_stop ("Created configuration file: " ++ CONFIG_FILE)) (fun _ =>
                   outro "You're all set!"))))))) report) s).
  { apply emits_try_catch; [|exact Hreport].
    apply emits_configure; [exact harmless_unspawned | intros content; exact I]. }
  eapply (emits_from_peel unspawned (intro _) _ _ _ _ _ [Intro "create-release-hub"]);
    [reflexivity | reflexivity | repeat constructor | exact Hreport | intros _ _].
  destruct (hasConfig_returns w {| pending := answers; trace := [Intro "create-release-hub"] |})
    as (b & d1 & Heq1 & Hq1 & Hb).
  eapply (emits_from_peel unspawned _ _ _ _ _ _ d1);
    [exact Heq1 | reflexivity | | exact Hreport | intros b' Hb'].
  { eapply Forall_impl; [|exact Hq1]. intros [] He; try exact I; destruct He. }
  injection Hb' as <-.
  destruct b.
  { eapply (emits_from_peel unspawned _ _ _ _ _ _ []);
      [reflexivity | symmetry; apply app_nil_r | constructor | exact Hreport
      | intros a Ha; discriminate Ha]. }
  eapply (emits_from_peel unspawned _ _ _ _ _ _ []);
    [reflexivity | symmetry; apply app_nil_r | constructor | exact Hreport | intros _ _].
  destruct (hasLib_returns w {| pending := answers;
                                trace := [Intro "create-release-hub"] ++ d1 |})
    as (d2 & Heq2 & t1 & t2 & ->).
  eapply (emits_from_peel unspawned _ _ _ _ _ _ [SpinnerStart t1; SpinnerStop t2]);
    [exact Heq2 | reflexivity | repeat constructor | exact Hreport | intros v Hv].
  injection Hv as <-.
  pose proof (hasLib_value_iff w) as Hlib.
  destruct (match manifest w with Unreadable _ => false | Parsed pkg => installed pkg end).
  { eapply (emits_from_peel unspawned _ _ _ _ _ _ []);
      [reflexivity | symmetry; apply app_nil_r | constructor | exact Hreport
      | intros _ _; apply Htail]. }
  assert (Hanswers : forall rest, answers <> Confirmed true :: rest).
  { destruct H as [H | [H | H]]; [| |exact H].
    - apply Hb in H. discriminate H.
    - apply Hlib in H. discriminate H. }
  cbn [negb]. unfold installStep. cbv zeta.
  unfold confirm, exitOnCancel, log_info, log_error, exit, stuck.
  destruct answers as [|a rest].
  { eapply (emits_from_peel unspawned _ _ _ _ _ _ []);
      [reflexivity | symmetry; apply app_nil_r | constructor | exact Hreport
      | intros a Ha; discriminate Ha]. }
  destruct a as [| [|] | v | vs | text];
    try (exfalso; exact (Hanswers rest eq_refl)).
  - eapply (emits_from_peel unspawned _ _ _ _ _ _
              [Asked (install_question w) Cancel; LogError cancelled]);
      [ cbn; reflexivity | cbn; rewrite <- ?app_assoc; reflexivity
      | repeat constructor | exact Hreport | intros a Ha; discriminate Ha ].
  - eapply (emits_from_peel unspawned _ _ _ _ _ _
              [Asked (install_question w) (Confirmed false);
               LogInfo "Skipping installation"]);
      [ cbn; reflexivity | cbn; rewrite <- ?app_assoc; reflexivity
      | repeat constructor | exact Hreport | intros _ _; apply Htail ].
  - eapply (emits_from_peel unspawned _ _ _ _ _ _
              [Asked (install_question w) (Picked v)]);
      [ cbn; reflexivity | cbn; rewrite <- ?app_assoc; reflexivity
      | repeat constructor | exact Hreport | intros a Ha; discriminate Ha ].
  - eapply (emits_from_peel unspawned _ _ _ _ _ _
              [Asked (install_question w) (PickedMany vs)]);
      [ cbn; reflexivity | cbn; rewrite <- ?app_assoc; reflexivity
      | repeat constructor | exact Hreport | intros a Ha; discriminate Ha ].
  - eapply (emits_from_peel unspawned _ _ _ _ _ _
              [Asked (install_question w) (Typed text)]);
      [ cbn; reflexivity | cbn; rewrite <- ?app_assoc; reflexivity
      | repeat constructor | exact Hreport | intros a Ha; discriminate Ha ].
Qed.

(** X11.  A run starts a subprocess only if it found no configuration,
    found the library missing from the manifest's dependencies, and the
    user's first answer was a yes: the very first question of such a run
    is the one about the installation.  So nothing is installed without
    consent, whatever the later answers. *)
Theorem install_needs_consent (w : world) (answers : list answer)
  (cmd : string) (args : list string) :
  In (Spawned cmd args) (trace (snd (run w answers))) ->
  ~ has_config w /\ ~ depends_on_library w /\
  exists rest, answers = Confirmed true :: rest.
Proof.
  intros Hin.
  assert (Hno : ~ emits_from unspawned (main w) (start answers)).
  { intros (d & Ht & Hd). change (run w answers) with (main w (start answers)) in Hin.
    rewrite Ht in Hin. rewrite Forall_forall in Hd. exact (Hd _ Hin). }
  split; [intros H; apply Hno, main_unspawned; auto|].
  split; [intros H; apply Hno, main_unspawned; auto|].
  destruct answers as [|[| [|] | v | vs | text] rest]; eauto;
    exfalso; apply Hno, main_unspawned; right; right; intros rest' H; discriminate H.
Qed.

Lemma install_needs_consent_witness :
  In (Spawned "yarn" ["add"; "-D"; NAME])
     (trace (snd (run fresh_project [Confirmed true; Picked "patch"]))) /\
  ~ has_config fresh_project /\ ~ depends_on_library fresh_project /\
  exists rest, [Confirmed true; Picked "patch"] = Confirmed true :: rest.
Proof.
  assert (H : In (Spawned "yarn" ["add"; "-D"; NAME])
                (trace (snd (run fresh_project [Confirmed true; Picked "patch"])))).
  { vm_compute. repeat (first [left; reflexivity | right]). }
  split; [exact H|].
  exact (install_needs_consent fresh_project [Confirmed true; Picked "patch"] _ _ H).
Defined.

(** ** The configuration check comes first *)

(** X12.  In a project that already has a configuration, the run is
    over before anything else happens: it opens, the spinner reports the
    check, the handler logs the one error, and the module ends normally.
    No question is asked, no answer of the user is taken, nothing is
    started and nothing is written. *)
Theorem config_check_comes_first (w : world) (answers : list answer) :
  has_config w ->
  exists d,
    run w answers =
      (Ret tt,
       {| pending := answers;
          trace := Intro "create-release-hub" :: d ++
                   [LogError "A Release Hub config already exists in this project"] |}) /\
    Forall spinner_event d.
Proof.
  intros Hc. unfold run, main, try_catch, body.
  rewrite (bind_ret_eq _ _ _ {| pending := answers; trace := [Intro "create-release-hub"] |} tt)
    by reflexivity.
  destruct (hasConfig_returns w {| pending := answers; trace := [Intro "create-release-hub"] |})
    as (b & d & Heq & Hq & Hb).
  assert (b = true) as -> by tauto.
  rewrite (bind_ret_eq _ _ _ _ _ Heq).
  rewrite (bind_throw_eq (throw _) _ _ _ _ eq_refl).
  exists d. split; [reflexivity | exact Hq].
Qed.

Lemma config_check_comes_first_witness :
  has_config configured_project /\
  exists d,
    run configured_project [Confirmed true; Picked "patch"] =
      (Ret tt,
       {| pending := [Confirmed true; Picked "patch"];
          trace := Intro "create-release-hub" :: d ++
                   [LogError "A Release Hub config already exists in this project"] |}) /\
    Forall spinner_event d.
Proof.
  assert (H : has_config configured_project) by (left; discriminate).
  split; [exact H|].
  exact (config_check_comes_first configured_project [Confirmed true; Picked "patch"] H).
Defined.

(** ** Every submitted group is kept *)

Lemma selections_app (d1 d2 : list event) :
  selections (d1 ++ d2) = selections d1 ++ selections d2.
Proof. apply flat_map_app. Qed.

Lemma syncGroupsBody_keeps (w : world) (syncGroups : list (list string)) (s : state) :
  exists d,
    trace (snd (syncGroupsBody w syncGroups s)) = trace s ++ d /\
    (forall text, In (LogError text) d -> text = cancelled) /\
    (forall again groups,
       fst (syncGroupsBody w syncGroups s) = Ret (again, groups) ->
       groups = syncGroups ++ selections d).
Proof.
  unfold syncGroupsBody, multiselect, confirm, exitOnCancel, read, bind, next, ret,
    stuck, log_error, emit, exit.
  destruct (pending s) as [|a rest]; simpl.
  { exists []. rewrite app_nil_r. split; [reflexivity|]. split; [intros text []|discriminate]. }
  destruct a; simpl;
    try (eexists [_]; split; [reflexivity|];
         split; [intros text [H | []]; discriminate H | discriminate]).
  { eexists [_; _]. split; [rewrite <- app_assoc; reflexivity|].
    split; [|discriminate].
    intros text [H | [H | []]]; [discriminate H | injection H as <-; reflexivity]. }
  destruct (forallb _ vs); simpl;
    [|eexists [_]; split; [reflexivity|];
      split; [intros text [H | []]; discriminate H | discriminate]].
  destruct rest as [|b rest']; simpl.
  { eexists [_]. split; [reflexivity|].
    split; [intros text [H | []]; discriminate H | discriminate]. }
  destruct b; simpl;
    try (eexists [_; _]; split; [rewrite <- app_assoc; reflexivity|];
         split; [intros text [H | [H | []]]; discriminate H | discriminate]).
  - eexists [_; _; _]. split; [rewrite <- !app_assoc; reflexivity|].
    split; [|discriminate].
    intros text [H | [H | [H | []]]];
      [discriminate H | discriminate H | injection H as <-; reflexivity].
  - eexists [_; _]. split; [rewrite <- app_assoc; reflexivity|].
    split; [intros text [H | [H | []]]; discriminate H|].
    intros again groups H. injection H as _ <-. reflexivity.
Qed.

Lemma syncGroupsLoop_keeps (w : world) (fuel : nat) :
  forall addMore syncGroups s r s',
    syncGroupsLoop fuel w addMore syncGroups s = Some (r, s') ->
    exists d,
      trace s' = trace s ++ d /\
      (forall text, In (LogError text) d -> text = cancelled) /\
      (forall groups, r = Ret groups -> groups = syncGroups ++ selections d).
Proof.
  induction fuel as [|fuel IH]; intros addMore syncGroups s r s'; destruct addMore; simpl;
    try discriminate;
    try (intros H; injection H as <- <-; exists []; rewrite !app_nil_r;
         split; [reflexivity|]; split; [intros text []|];
         intros groups Hg; injection Hg as <-; reflexivity).
  destruct (syncGroupsBody_keeps w syncGroups s) as (d1 & Ht1 & He1 & Hk1).
  destruct (syncGroupsBody w syncGroups s) as [[[again groups'] | e | h] s1]; simpl in *.
  - intros H. destruct (IH _ _ _ _ _ H) as (d2 & Ht2 & He2 & Hk2).
    exists (d1 ++ d2). split; [rewrite Ht2, Ht1; symmetry; apply app_assoc|].
    split.
    + intros text Hin. apply in_app_or in Hin. destruct Hin; auto.
    + intros groups Hg. rewrite (Hk2 _ Hg), (Hk1 _ _ eq_refl), selections_app.
      symmetry. apply app_assoc.
  - intros H. injection H as <- <-. exists d1.
    split; [exact Ht1|]. split; [exact He1 | discriminate].
  - intros H. injection H as <- <-. exists d1.
    split; [exact Ht1|]. split; [exact He1 | discriminate].
Qed.

(** X13.  Whatever the user answers in the sync-groups loop, the
    complaint about a group of fewer than two targets is never logged:
    the only error the loop can log is the cancellation.  And when the
    loop comes back, the groups it returns are exactly the selections
    the user submitted, all of them, in order: no selection is ever
    dropped for its size. *)
Theorem every_selection_is_kept (w : world) (s : state) :
  exists d,
    trace (snd (syncGroupsFlow w s)) = trace s ++ d /\
    (forall text, In (LogError text) d -> text = cancelled) /\
    ~ In (LogError "A sync group must contain at least 2 targets.") d /\
    (forall groups,
       fst (syncGroupsFlow w s) = Ret groups -> groups = selections d).
Proof.
  unfold syncGroupsFlow.
  destruct (syncGroupsLoop _ w true [] s) as [[r s']|] eqn:Hloop; simpl.
  - destruct (syncGroupsLoop_keeps w _ _ _ _ _ _ Hloop) as (d & Ht & He & Hk).
    exists d. split; [exact Ht|]. split; [exact He|].
    split; [intros H; apply He in H; discriminate H|].
    intros groups Hg. exact (Hk groups Hg).
  - exists []. rewrite app_nil_r. split; [reflexivity|].
    split; [intros text []|]. split; [intros []|discriminate].
Qed.

(** * The status of the process *)

(** ** The spinner along a run *)





(** ** An install subprocess that fails *)





(** The two other fatal conditions of C1, run: an install that exits
    with code 1, and a write that is refused.  Both leave the spinner
    running. *)
Example failed_install_keeps_spinning :
  detectPackageManager failing_install_project = "pnpm" /\
  fst (run failing_install_project [Confirmed true]) = Ret tt /\
  errors (trace (snd (run failing_install_project [Confirmed true])))
  = ["pnpm exited with code 1"] /\
  spinning (trace (snd (run failing_install_project [Confirmed true]))) = true /\
  exit_status (run failing_install_project [Confirmed true]) = None.
Proof. repeat split. Qed.

Example failed_write_keeps_spinning :
  fst (run read_only_project minor_node_deno_all) = Ret tt /\
  errors (trace (snd (run read_only_project minor_node_deno_all)))
  = ["EACCES: permission denied, open './.release-hub.json'"] /\
  written (trace (snd (run read_only_project minor_node_deno_all))) = [] /\
  spinning (trace (snd (run read_only_project minor_node_deno_all))) = true /\
  exit_status (run read_only_project minor_node_deno_all) = None.
Proof. repeat split. Qed.

(** * One write, at the end *)

Lemma try_catch_bind_ret {A B : Type} (m : M A) (k : A -> M B) (handler : exn -> M B)
  (s s' : state) (a : A) :
  m s = (Ret a, s') -> try_catch (bind m k) handler s = try_catch (k a) handler s'.
Proof. intros H. unfold try_catch, bind. rewrite H. reflexivity. Qed.

Lemma try_catch_bind_throw {A B : Type} (m : M A) (k : A -> M B) (handler : exn -> M B)
  (s s' : state) (e : exn) :
  m s = (Throw e, s') -> try_catch (bind m k) handler s = handler e s'.
Proof. intros H. unfold try_catch, bind. rewrite H. reflexivity. Qed.

Lemma try_catch_bind_halt {A B : Type} (m : M A) (k : A -> M B) (handler : exn -> M B)
  (s s' : state) (h : halt) :
  m s = (Halt h, s') -> try_catch (bind m k) handler s = (Halt h, s').
Proof. intros H. unfold try_catch, bind. rewrite H. reflexivity. Qed.

Lemma outcome_unwritten {A : Type} (w : world) (P : A -> list event -> Prop)
  (r : res A) (d : list event) :
  (forall a d', P a d' -> quiet w d') -> outcome w P r d -> written d = [].
Proof.
  intros HP H. destruct r as [a | e | [code | |]]; simpl in H.
  - apply (quiet_written w), (HP a), H.
  - apply (failure_unwritten w e d H).
  - destruct H as (_ & d0 & p & Hq & ->).
    rewrite written_app, (quiet_written w d0 Hq). reflexivity.
  - apply (quiet_written w), H.
  - apply (quiet_written w), H.
Qed.

Lemma installStep_pending (w : world) (s : state) :
  exists used, pending s = used ++ pending (snd (installStep w s)).
Proof.
  unfold installStep. cbv zeta.
  remember (lookup (detectPackageManager w) PACKAGE_INSTALL) as entry eqn:Hentry.
  unfold confirm, exitOnCancel, destructure, spawnAsync, log_info, log_error, exit, stuck,
    s_start, s_stop, bind, next, emit, ret, throw.
  destruct s as [answers tr]. cbn [pending trace].
  destruct answers as [|a rest]; [exists []; reflexivity|].
  exists [a]. destruct a as [| [|] | v | vs | text]; cbn [negb pending trace fst snd app];
    try reflexivity.
  destruct entry as [[cmd args]|]; cbn [pending trace fst snd]; [|reflexivity].
  destruct (spawn w cmd args) as [code | | e]; [destruct (code =? 0)%Z| |]; reflexivity.
Qed.

Lemma configure_written (w : world) (s : state) :
  written (trace s) = [] ->
  let out :=
    try_catch
      (bind (log_info "Configuring Release Hub") (fun _ =>
       bind (assemble w config) (fun cfg =>
       bind (log_success "Configuration complete") (fun _ =>
       bind (s_start ("Generating configuration file: " ++ CONFIG_FILE)) (fun _ =>
       bind (writeFile w CONFIG_FILE (stringify (VObj cfg) ++ newline)) (fun _ =>
       bind (s_stop ("Created configuration file: " ++ CONFIG_FILE)) (fun _ =>
       outro "You're all set!")))))))
      report s in
  written (trace (snd out)) = [] \/
  exists s0 s1 cfg,
    pending s0 = pending s /\
    assemble w config s0 = (Ret cfg, s1) /\
    written (trace s1) = [] /\
    out = (Ret tt, {| pending := pending s1; trace := trace s1 ++ completion cfg |}).
Proof.
  intros Hw. cbv zeta.
  set (s0 := {| pending := pending s; trace := trace s ++ [LogInfo "Configuring Release Hub"] |}).
  rewrite (try_catch_bind_ret _ _ _ s s0 tt) by reflexivity.
  destruct (assemble_sound w s0) as (d & Ht & Ho).
  assert (Hd : written d = []).
  { eapply outcome_unwritten; [|exact Ho]. intros a d' [H _]. exact H. }
  assert (Hw1 : written (trace (snd (assemble w config s0))) = []).
  { rewrite Ht. unfold s0. cbn [trace]. rewrite !written_app, Hw, Hd. reflexivity. }
  clear Ho Ht Hd.
  destruct (assemble w config s0) as [[cfg | e | h] s1] eqn:Ha; cbn [snd] in Hw1.
  - rewrite (try_catch_bind_ret _ _ _ _ _ _ Ha).
    unfold log_success, s_start, s_stop, outro, writeFile.
    rewrite (try_catch_bind_ret (emit _) _ _ s1 _ tt) by reflexivity.
    rewrite (try_catch_bind_ret (emit _) _ _ _ _ tt) by reflexivity.
    destruct (write_failure w) as [e|].
    + left. rewrite (try_catch_bind_throw (throw e) _ _ _ _ e) by reflexivity.
      unfold report, log_error, emit. cbn [snd trace].
      rewrite !written_app, Hw1. reflexivity.
    + right. exists s0, s1, cfg. split; [reflexivity|]. split; [exact Ha|].
      split; [exact Hw1|].
      rewrite (try_catch_bind_ret (emit _) _ _ _ _ tt) by reflexivity.
      rewrite (try_catch_bind_ret (emit _) _ _ _ _ tt) by reflexivity.
      unfold try_catch, emit, completion. cbn [pending trace].
      rewrite <- !app_assoc. reflexivity.
  - left. rewrite (try_catch_bind_throw _ _ _ _ _ _ Ha).
    unfold report, log_error, emit. cbn [snd trace].
    rewrite written_app, Hw1. reflexivity.
  - left. rewrite (try_catch_bind_halt _ _ _ _ _ _ Ha). exact Hw1.
Qed.

Lemma run_written (w : world) (answers : list answer) :
  written (trace (snd (run w answers))) = [] \/
  exists s0 s1 cfg used,
    answers = used ++ pending s0 /\
    assemble w config s0 = (Ret cfg, s1) /\
    written (trace s1) = [] /\
    run w answers =
      (Ret tt, {| pending := pending s1; trace := trace s1 ++ completion cfg |}).
Proof.
  unfold run, main, body.
  rewrite (try_catch_bind_ret (intro _) _ _ _
             {| pending := answers; trace := [Intro "create-release-hub"] |} tt)
    by reflexivity.
  destruct (hasConfig_returns w {| pending := answers; trace := [Intro "create-release-hub"] |})
    as (b & d1 & Heq1 & Hd1 & Hb).
  rewrite (try_catch_bind_ret _ _ _ _ _ _ Heq1). cbn [pending trace] in *.
  assert (Hw1 : written ([Intro "create-release-hub"] ++ d1) = []).
  { apply (quiet_written w). constructor; [exact I | apply (spinner_quiet w), Hd1]. }
  destruct b.
  { left. rewrite (try_catch_bind_throw (throw _) _ _ _ _ _ eq_refl).
    unfold report, log_error, emit. cbn [snd trace].
    rewrite written_app, Hw1. reflexivity. }
  rewrite (try_catch_bind_ret (ret tt) _ _ _ _ tt eq_refl).
  destruct (hasLib_returns w {| pending := answers;
                                trace := [Intro "create-release-hub"] ++ d1 |})
    as (d2 & Heq2 & t1 & t2 & ->).
  rewrite (try_catch_bind_ret _ _ _ _ _ _ Heq2). cbn [pending trace] in *.
  set (s2 := {| pending := answers;
                trace := ([Intro "create-release-hub"] ++ d1)
                         ++ [SpinnerStart t1; SpinnerStop t2] |}).
  assert (Hw2 : written (trace s2) = []).
  { unfold s2. cbn [trace]. rewrite written_app, Hw1. reflexivity. }
  assert (Hfinish : forall s3 used,
             answers = used ++ pending s3 -> written (trace s3) = [] ->
             forall out,
               out = try_catch
                       (bind (log_info "Configuring Release Hub") (fun _ =>
                        bind (assemble w config) (fun cfg =>
                        bind (log_success "Configuration complete") (fun _ =>
                        bind (s_start ("Generating configuration file: " ++ CONFIG_FILE))
                          (fun _ =>
                        bind (writeFile w CONFIG_FILE (stringify (VObj cfg) ++ newline))
                          (fun _ =>
                        bind (s_stop ("Created configuration file: " ++ CONFIG_FILE))
                          (fun _ =>
                        outro "You're all set!")))))))
                       report s3 ->
               written (trace (snd out)) = [] \/
               exists s0 s1 cfg used0,
                 answers = used0 ++ pending s0 /\
                 assemble w config s0 = (Ret cfg, s1) /\
                 written (trace s1) = [] /\
                 out = (Ret tt, {| pending := pending s1;
                                   trace := trace s1 ++ completion cfg |})).
  { intros s3 used Hu Hw3 out ->.
    destruct (configure_written w s3 Hw3) as [H | (s0 & s1 & cfg & Hp & Ha & Hw & Hout)];
      [left; exact H | right].
    exists s0, s1, cfg, used. rewrite Hp. auto. }
  destruct (match manifest w with Unreadable _ => false | Parsed pkg => installed pkg end);
    cbn [negb].
  { rewrite (try_catch_bind_ret (ret tt) _ _ s2 s2 tt eq_refl).
    apply (Hfinish s2 []); [reflexivity | exact Hw2 | reflexivity]. }
  destruct (installStep_sound w s2) as (d3 & Ht3 & Ho3).
  assert (Hd3 : written d3 = []).
  { eapply outcome_unwritten; [|exact Ho3]. intros a d' [H _]. exact H. }
  assert (Hw3 : written (trace (snd (installStep w s2))) = []).
  { rewrite Ht3, written_app, Hw2, Hd3. reflexivity. }
  destruct (installStep_pending w s2) as (used & Hu).
  clear Ho3 Ht3 Hd3.
  destruct (installStep w s2) as [[[] | e | h] s3] eqn:Hstep; cbn [snd] in Hw3, Hu.
  - rewrite (try_catch_bind_ret _ _ _ _ _ _ Hstep).
    apply (Hfinish s3 used); [exact Hu | exact Hw3 | reflexivity].
  - left. rewrite (try_catch_bind_throw _ _ _ _ _ _ Hstep).
    unfold report, log_error, emit. cbn [snd trace].
    rewrite written_app, Hw3. reflexivity.
  - left. rewrite (try_catch_bind_halt _ _ _ _ _ _ Hstep). exact Hw3.
Qed.

(** X4.  A run writes at most one file, and what it writes is the
    object the prompts assembled in that very run: [assemble], started
    on the answers the install step left, returned it, the five closing
    events follow at once, and the write among them puts the
    serialization of that object, followed by a newline, into the
    configuration file.  The closing message [You're all set!] is shown
    exactly in the runs that wrote the file, as their last event. *)
Theorem written_once_at_the_end (w : world) (answers : list answer) :
  let tr := trace (snd (run w answers)) in
  (written tr = [] \/
   exists s0 s1 cfg used,
     answers = used ++ pending s0 /\
     assemble w config s0 = (Ret cfg, s1) /\
     run w answers =
       (Ret tt, {| pending := pending s1; trace := trace s1 ++ completion cfg |}) /\
     written tr = [(CONFIG_FILE, (stringify (VObj cfg) ++ newline)%string)]) /\
  (written tr <> [] <-> In (Outro "You're all set!") tr) /\
  (written tr <> [] -> exists d, tr = d ++ [Outro "You're all set!"]).
Proof.
  cbv zeta. split.
  { destruct (run_written w answers) as [H | (s0 & s1 & cfg & used & Hu & Ha & Hw & Hrun)];
      [left; exact H | right].
    exists s0, s1, cfg, used. split; [exact Hu|]. split; [exact Ha|].
    split; [exact Hrun|]. rewrite Hrun. cbn [snd trace].
    rewrite written_app, Hw. reflexivity. }
  pose proof (run_ending w answers) as H.
  destruct (run w answers) as [r s]. simpl in *.
  remember (trace s) as tr eqn:Htr. clear Htr.
  assert (Hno : forall d, quiet w d -> ~ In (Outro "You're all set!") d).
  { intros d Hq Hin. unfold quiet in Hq. rewrite Forall_forall in Hq. exact (Hq _ Hin). }
  destruct H as [d cfg Hq Ha Hw | d e Hf | d p' Hq | d h Hh Hq].
  - rewrite written_app, (quiet_written w d Hq). simpl. split.
    + split; [intros _|discriminate].
      apply in_or_app. right. unfold completion. simpl. auto 6.
    + intros _. exists (d ++ firstn 4 (completion cfg)).
      rewrite <- app_assoc. reflexivity.
  - rewrite written_app, (proj1 (failure_unwritten w e d Hf)). simpl.
    split; [|intros H; contradiction].
    split; [intros H; contradiction|]. intros Hin. exfalso.
    apply in_app_or in Hin. destruct Hin as [Hin | [Hin | []]]; [|discriminate Hin].
    destruct Hf as [d Hd _ | d Hd _ | d cmd args e Hd _ | d e Hd _].
    + exact (Hno d Hd Hin).
    + exact (Hno d Hd Hin).
    + apply in_app_or in Hin. destruct Hin as [Hin | [Hin | []]];
        [exact (Hno d Hd Hin) | discriminate Hin].
    + apply in_app_or in Hin. destruct Hin as [Hin | [Hin | [Hin | []]]];
        [exact (Hno d Hd Hin) | discriminate Hin | discriminate Hin].
  - rewrite written_app, (quiet_written w d Hq). simpl.
    split; [|intros H; contradiction].
    split; [intros H; contradiction|]. intros Hin. exfalso.
    apply in_app_or in Hin. destruct Hin as [Hin | [Hin | [Hin | []]]];
      [exact (Hno d Hq Hin) | discriminate Hin | discriminate Hin].
  - rewrite (quiet_written w d Hq).
    split; [|intros H; contradiction].
    split; [intros H; contradiction|]. intros Hin. exfalso. exact (Hno d Hq Hin).
Qed.
